(** * ClawHark transcription pipeline: a shallow embedding of
      [scripts/transcribe.py] and the properties of its segmentation,
      merge and diarization phases.

    Conventions of the embedding.
    - Python [str] values are [string]s of 8-bit characters.
    - A raised exception is a value of [exn]; code that can raise returns
      a [result].  Code with effects (environment, files, HTTP, external
      processes) runs in the state monad [M] over a [world].
    - Progress messages written with [print] are not part of the model,
      and the [import] statements inside the functions succeed. *)

From Stdlib Require Import ZArith Ascii.
From Stdlib Require String.
From stdpp Require Import base option list gmap strings pretty.

Open Scope Z_scope.

(** ** Exceptions and results *)

Inductive exn : Type :=
  | ValueError
  | IndexError
  | KeyError
  | TypeError
  | AttributeError
  | FileNotFoundError
  | ConnectionError
  | OverflowError.

Global Instance exn_eq_dec : EqDecision exn.
Proof. solve_decision. Defined.

Inductive result (A : Type) : Type :=
  | Ok (a : A)
  | Raise (e : exn).
Arguments Ok {A} a.
Arguments Raise {A} e.

Global Instance result_ret : MRet result := λ A a, Ok a.
Global Instance result_bind : MBind result := λ A B f r,
  match r with
  | Ok a => f a
  | Raise e => Raise e
  end.

(** [xs[i]] for a non-negative index. *)
Definition getitem {A} (xs : list A) (i : nat) : result A :=
  match xs !! i with
  | Some x => Ok x
  | None => Raise IndexError
  end.

(** A [for] loop threading a state through a fallible body. *)
Fixpoint foldM {A B} (f : A → B → result A) (a : A) (bs : list B) : result A :=
  match bs with
  | [] => Ok a
  | b :: bs' => a' ← f a b; foldM f a' bs'
  end.

(** ** Strings: [str.split] and the pieces of [datetime.strptime] *)

Module PyStr.

(** [strip_prefix p s] is [Some r] when [s = p ++ r]. *)
Fixpoint strip_prefix (p s : string) : option string :=
  match p, s with
  | EmptyString, _ => Some s
  | String a p', String b s' =>
      if Ascii.eqb a b then strip_prefix p' s' else None
  | String _ _, EmptyString => None
  end.

(** First occurrence of [sep] in [s]: the text before it and after it. *)
Fixpoint find (sep s : string) : option (string * string) :=
  match strip_prefix sep s with
  | Some rest => Some (EmptyString, rest)
  | None =>
      match s with
      | EmptyString => None
      | String c s' =>
          match find sep s' with
          | Some (before, after) => Some (String c before, after)
          | None => None
          end
      end
  end.

Fixpoint split_aux (fuel : nat) (sep s : string) : list string :=
  match fuel with
  | O => [s]
  | S fuel' =>
      match find sep s with
      | None => [s]
      | Some (before, after) => before :: split_aux fuel' sep after
      end
  end.

(** [s.split(sep)] for a non-empty separator: every occurrence of [sep],
    found left to right, cuts the string; [length s] cuts are enough. *)
Definition split (sep s : string) : list string :=
  split_aux (String.length s) sep s.

Definition is_digit (c : ascii) : bool :=
  (48 <=? nat_of_ascii c)%nat && (nat_of_ascii c <=? 57)%nat.

Definition in_range (lo hi : ascii) (c : ascii) : bool :=
  (nat_of_ascii lo <=? nat_of_ascii c)%nat
  && (nat_of_ascii c <=? nat_of_ascii hi)%nat.

Definition is_char (a : ascii) (c : ascii) : bool := Ascii.eqb a c.

(** [int(s)] on the texts the groups below can capture: decimal digits,
    possibly after a blank. *)
Definition py_int (s : string) : Z :=
  fold_left
    (λ acc c, if is_digit c then 10 * acc + (Z.of_nat (nat_of_ascii c) - 48)
              else acc)
    (String.list_ascii_of_string s) 0.

End PyStr.

(** ** Regular expressions of [_strptime]

    The pattern built from a format is a sequence of groups; a group is an
    ordered alternation, an alternative a sequence of character classes.
    Matching explores alternatives in order and backtracks, so the matches
    of a sequence of groups are listed in the order the [re] engine tries
    them: the first one is the match [re] reports. *)

Module Regex.

Definition cclass : Type := ascii → bool.
Definition alt : Type := list cclass.
Definition group : Type := list alt.

(** Match a sequence of classes at the start of [s]: the matched text
    and the rest. *)
Fixpoint match_alt (p : alt) (s : string) : option (string * string) :=
  match p with
  | [] => Some (EmptyString, s)
  | cl :: p' =>
      match s with
      | EmptyString => None
      | String c s' =>
          if cl c then
            match match_alt p' s' with
            | Some (m, rest) => Some (String c m, rest)
            | None => None
            end
          else None
      end
  end.

Definition match_group (g : group) (s : string) : list (string * string) :=
  omap (λ p, match_alt p s) g.

(** All ways to match the groups one after the other, in the order of
    the backtracking search, each with the captured texts. *)
Fixpoint match_groups (gs : list group) (s : string)
  : list (list string * string) :=
  match gs with
  | [] => [([], s)]
  | g :: gs' =>
      '(m, rest) ← match_group g s;
      '(ms, rest') ← match_groups gs' rest;
      [(m :: ms, rest')]
  end.

(** [re.match]: the first match, anchored at the start only. *)
Definition re_match (gs : list group) (s : string)
  : option (list string * string) :=
  head (match_groups gs s).

End Regex.

(** ** [datetime] and [timedelta] *)

Record datetime : Type := mkDatetime {
  year : Z; month : Z; day : Z;
  hour : Z; minute : Z; second : Z
}.

Record timedelta : Type := mkTimedelta {
  days : Z;
  seconds : Z    (* 0 <= seconds < 86400 after normalisation *)
}.

Module Datetime.
Import PyStr Regex.

Definition is_leap (y : Z) : bool :=
  (y mod 4 =? 0) && (negb (y mod 100 =? 0) || (y mod 400 =? 0)).

Definition days_in_month (y m : Z) : Z :=
  if m =? 2 then (if is_leap y then 29 else 28)
  else if (m =? 4) || (m =? 6) || (m =? 9) || (m =? 11) then 30
  else 31.

Definition days_before_year (y : Z) : Z :=
  let y1 := y - 1 in
  y1 * 365 + y1 / 4 - y1 / 100 + y1 / 400.

Fixpoint days_before_month_aux (y : Z) (m : nat) : Z :=
  match m with
  | O => 0
  | S m' => days_before_month_aux y m' + days_in_month y (Z.of_nat m)
  end.

(** Days of the year before the first day of month [m]. *)
Definition days_before_month (y m : Z) : Z :=
  days_before_month_aux y (Z.to_nat (m - 1)).

Definition toordinal (t : datetime) : Z :=
  days_before_year (year t) + days_before_month (year t) (month t) + day t.

(** The constructor [datetime(y, m, d, H, M, S)]: range checks, else
    [ValueError]. *)
Definition make (y m d H Mi Se : Z) : result datetime :=
  if (1 <=? y) && (y <=? 9999)
     && (1 <=? m) && (m <=? 12)
     && (1 <=? d) && (d <=? days_in_month y m)
     && (0 <=? H) && (H <=? 23)
     && (0 <=? Mi) && (Mi <=? 59)
     && (0 <=? Se) && (Se <=? 59)
  then Ok (mkDatetime y m d H Mi Se)
  else Raise ValueError.

(** [timedelta(days, seconds)], normalised. *)
Definition delta (d s : Z) : timedelta :=
  mkTimedelta (d + s / 86400) (s mod 86400).

(** [a - b] on naive datetimes. *)
Definition sub (a b : datetime) : timedelta :=
  let secs1 := second a + minute a * 60 + hour a * 3600 in
  let secs2 := second b + minute b * 60 + hour b * 3600 in
  delta (toordinal a - toordinal b) (secs1 - secs2).

(** [td.total_seconds()]; the microseconds are 0 here, so the float is
    an integer, exactly representable for every pair of datetimes. *)
Definition total_seconds (td : timedelta) : Z :=
  days td * 86400 + seconds td.

(** The groups of the directives used by ["%Y-%m-%d_%H-%M-%S"]. *)
Definition d09 : cclass := is_digit.
Definition rx_Y : group := [[d09; d09; d09; d09]].
Definition rx_m : group :=
  [[is_char "1"; in_range "0" "2"]; [is_char "0"; in_range "1" "9"];
   [in_range "1" "9"]].
Definition rx_d : group :=
  [[is_char "3"; in_range "0" "1"]; [in_range "1" "2"; d09];
   [is_char "0"; in_range "1" "9"]; [in_range "1" "9"];
   [is_char " "; in_range "1" "9"]].
Definition rx_H : group :=
  [[is_char "2"; in_range "0" "3"]; [in_range "0" "1"; d09]; [d09]].
Definition rx_M : group := [[in_range "0" "5"; d09]; [d09]].
Definition rx_S : group :=
  [[is_char "6"; in_range "0" "1"]; [in_range "0" "5"; d09]; [d09]].
Definition rx_lit (c : ascii) : group := [[is_char c]].

Definition format_regex : list group :=
  [rx_Y; rx_lit "-"; rx_m; rx_lit "-"; rx_d; rx_lit "_";
   rx_H; rx_lit "-"; rx_M; rx_lit "-"; rx_S].

(** [datetime.strptime(data_string, "%Y-%m-%d_%H-%M-%S")]: match the
    pattern, refuse unconverted data, convert the fields and build the
    datetime.  Every failure is a [ValueError]. *)
Definition strptime (data_string : string) : result datetime :=
  match re_match format_regex data_string with
  | None => Raise ValueError
  | Some (found, rest) =>
      if negb (String.eqb rest EmptyString) then Raise ValueError
      else
        match found with
        | [gY; _; gm; _; gd; _; gH; _; gM; _; gS] =>
            make (py_int gY) (py_int gm) (py_int gd)
                 (py_int gH) (py_int gM) (py_int gS)
        | _ => Raise ValueError
        end
  end.

End Datetime.

(** ** Paths

    A [pathlib.Path] as the pieces the pipeline reads: the directory part
    (empty, or ending with a slash), the stem and the suffix of the final
    component. *)

Record Path : Type := mkPath {
  dir : string;
  stem : string;
  suffix : string
}.

Global Instance Path_eq_dec : EqDecision Path.
Proof. solve_decision. Defined.

Definition name (p : Path) : string := stem p +:+ suffix p.
Definition path_str (p : Path) : string := dir p +:+ name p.

(** ** Phase 2: segmentation *)

(** [datetime.strptime(name.split("chunk_")[1], "%Y-%m-%d_%H-%M-%S")] *)
Definition chunk_time (chunk_name : string) : result datetime :=
  part ← getitem (PyStr.split "chunk_" chunk_name) 1;
  Datetime.strptime part.

(** The [try] block of the loop body with its handler: the gap in seconds,
    or 300 when [ValueError] or [IndexError] is raised; any other exception
    is not handled. *)
Definition pair_gap (prev_name curr_name : string) : result Z :=
  match
    prev_time ← chunk_time prev_name;
    curr_time ← chunk_time curr_name;
    Ok (Datetime.total_seconds (Datetime.sub curr_time prev_time))
  with
  | Ok gap => Ok gap
  | Raise ValueError | Raise IndexError => Ok 300
  | Raise e => Raise e
  end.

(** One iteration of the loop at index [i], on the pair
    [(conversations, current)]. *)
Definition segment_step (chunks : list Path)
    (st : list (list Path) * list Path) (i : nat)
  : result (list (list Path) * list Path) :=
  let '(conversations, current) := st in
  prev ← getitem chunks (i - 1);
  curr ← getitem chunks i;
  gap ← pair_gap (stem prev) (stem curr);
  if 600 <? gap
  then Ok (conversations ++ [current], [curr])
  else Ok (conversations, current ++ [curr]).

Definition phase2_segment (chunks : list Path) : result (list (list Path)) :=
  match chunks with
  | [] => Ok []
  | chunk0 :: _ =>
      '(conversations, current) ←
        foldM (segment_step chunks) ([], [chunk0])
              (seq 1 (length chunks - 1));
      Ok (conversations ++ [current])
  end.

(** The gap the loop computes at index [i]: between [chunks[i-1]] and
    [chunks[i]] of the original sequence. *)
Definition gap_at (chunks : list Path) (i : nat) : result Z :=
  prev ← getitem chunks (i - 1);
  curr ← getitem chunks i;
  pair_gap (stem prev) (stem curr).

(** The test [gap > 600] at index [i]. *)
Definition new_group_at (chunks : list Path) (i : nat) : bool :=
  match gap_at chunks i with
  | Ok gap => 600 <? gap
  | Raise _ => false
  end.

(** Positions, in the concatenation of the groups, at which a group
    starts. *)
Fixpoint group_starts_from {A} (off : nat) (gs : list (list A)) : list nat :=
  match gs with
  | [] => []
  | g :: gs' => off :: group_starts_from (off + length g)%nat gs'
  end.

Definition group_starts {A} (gs : list (list A)) : list nat :=
  group_starts_from 0%nat gs.

(** Python's order on naive datetimes: lexicographic on the fields. *)
Definition datetime_fields (t : datetime) : list Z :=
  [year t; month t; day t; hour t; minute t; second t].

Fixpoint lex_ltb (xs ys : list Z) : bool :=
  match xs, ys with
  | x :: xs', y :: ys' => (x <? y) || ((x =? y) && lex_ltb xs' ys')
  | [], _ :: _ => true
  | _, [] => false
  end.

Definition datetime_ltb (a b : datetime) : bool :=
  lex_ltb (datetime_fields a) (datetime_fields b).

(** The fields of a datetime are in the ranges its constructor accepts. *)
Definition valid_datetime (t : datetime) : Prop :=
  1 <= year t <= 9999 ∧ 1 <= month t <= 12
  ∧ 1 <= day t <= Datetime.days_in_month (year t) (month t)
  ∧ 0 <= hour t <= 23 ∧ 0 <= minute t <= 59 ∧ 0 <= second t <= 59.

Definition year_length (y : Z) : Z := if Datetime.is_leap y then 366 else 365.

(** Seconds since the start of day 0: the quantity whose difference
    [total_seconds (sub a b)] is. *)
Definition timestamp (t : datetime) : Z :=
  Datetime.toordinal t * 86400 + hour t * 3600 + minute t * 60 + second t.

(** The pair [(chunks[i-1], chunks[i])] has a member whose timestamp does
    not parse. *)
Definition unparseable_at (chunks : list Path) (i : nat) : Prop :=
  ∃ prev curr,
    chunks !! (i - 1)%nat = Some prev ∧ chunks !! i = Some curr
    ∧ ((∃ e, chunk_time (stem prev) = Raise e)
       ∨ (∃ e, chunk_time (stem curr) = Raise e)).

(** ** Values decoded from JSON

    What [response.json()] returns: [None], booleans, integers, strings,
    lists and dictionaries.  A dictionary is an association list in which
    the first binding of a key counts.  JSON numbers with a fractional
    part are outside the model. *)

#[warnings="-register-all"] Inductive value : Type :=
  | VNone
  | VBool (b : bool)
  | VInt (n : Z)
  | VStr (s : string)
  | VList (xs : list value)
  | VDict (kvs : list (string * value)).

Inductive key : Type :=
  | KStr (s : string)
  | KInt (i : Z).

(** The parts of the Python runtime the pipeline calls and the model
    leaves open: [str()] of a list or dictionary, [json.dumps] and
    [base64.b64encode(..).decode()]. *)
Class PyRuntime : Type := {
  repr_of : value → string;
  json_dumps : value → string;
  b64encode : string → string
}.

Definition nl : string := String "010"%char EmptyString.

Module Py.

Definition dict_get (kvs : list (string * value)) (k : string) : option value :=
  snd <$> List.find (λ kv, String.eqb (fst kv) k) kvs.

(** [xs[i]] with Python's negative indices. *)
Definition list_index {A} (xs : list A) (i : Z) : result A :=
  let n := Z.of_nat (length xs) in
  let j := if i <? 0 then i + n else i in
  if (0 <=? j) && (j <? n) then getitem xs (Z.to_nat j)
  else Raise IndexError.

(** [v[k]] *)
Definition subscript (v : value) (k : key) : result value :=
  match v, k with
  | VDict kvs, KStr s =>
      match dict_get kvs s with
      | Some x => Ok x
      | None => Raise KeyError
      end
  | VDict _, KInt _ => Raise KeyError
  | VList xs, KInt i => list_index xs i
  | VList _, KStr _ => Raise TypeError
  | VStr s, KInt i =>
      c ← list_index (String.list_ascii_of_string s) i;
      Ok (VStr (String c EmptyString))
  | VStr _, KStr _ => Raise TypeError
  | (VNone | VBool _ | VInt _), _ => Raise TypeError
  end.

(** [v.get(k, default)] *)
Definition get (v : value) (k : string) (dflt : value) : result value :=
  match v with
  | VDict kvs => Ok (default dflt (dict_get kvs k))
  | _ => Raise AttributeError
  end.

End Py.

(** [for x in v]: the items a value yields, in order. *)
Definition iterate (v : value) : result (list value) :=
  match v with
  | VList xs => Ok xs
  | VDict kvs => Ok ((λ kv, VStr (fst kv)) <$> kvs)
  | VStr s => Ok ((λ c, VStr (String c EmptyString)) <$> String.list_ascii_of_string s)
  | VNone | VBool _ | VInt _ => Raise TypeError
  end.

(** [str(v)], as an f-string field renders it. *)
Definition py_str `{PyRuntime} (v : value) : string :=
  match v with
  | VStr s => s
  | VNone => "None"
  | VBool true => "True"
  | VBool false => "False"
  | VInt n => pretty n
  | VList _ | VDict _ => repr_of v
  end.

(** [sep.join(items)] on strings. *)
Fixpoint str_join (sep : string) (items : list string) : string :=
  match items with
  | [] => ""
  | [s] => s
  | s :: rest => s +:+ sep +:+ str_join sep rest
  end.

(** An item of [sep.join(values)]: [TypeError] unless it is a [str]. *)
Definition join_item (v : value) : result string :=
  match v with
  | VStr s => Ok s
  | _ => Raise TypeError
  end.

(** [sep.join(values)] *)
Definition join_values (sep : string) (vs : list value) : result string :=
  items ← mapM (M := result) join_item vs;
  Ok (str_join sep items).

(** *** Milliseconds to seconds

    [v / 1000] on an [int] is a [float]: the binary64 number nearest to
    the quotient, ties to the even significand, and [OverflowError] when
    that number is beyond the largest float.  A finite float is kept as
    [mant * 2 ^ expo]; its sign is the sign of [mant].  Quotients of a
    non-zero integer by 1000 are far above the subnormal range, so the
    significand always has 53 bits. *)

Record float : Type := mkFloat {
  mant : Z;
  expo : Z
}.

(** [num / den] rounded to the nearest integer, ties to even, for
    [0 < den]. *)
Definition round_half_even (num den : Z) : Z :=
  let q := num / den in
  let r := num mod den in
  if 2 * r <? den then q
  else if den <? 2 * r then q + 1
  else if Z.even q then q else q + 1.

(** The fraction [a / (1000 * 2 ^ e)], numerator and denominator. *)
Definition scaled (a e : Z) : Z * Z :=
  if e <? 0 then (a * 2 ^ (- e), 1000) else (a, 1000 * 2 ^ e).

(** The float nearest to [a / 1000] for [0 < a], before the range check:
    the exponent [e] is the one for which [a / 1000] is between
    [2 ^ 52 * 2 ^ e] and [2 ^ 53 * 2 ^ e], and the significand is
    [a / (1000 * 2 ^ e)] rounded. *)
Definition nearest_float_1000 (a : Z) : float :=
  let e0 := Z.log2 a - Z.log2 1000 - 52 in
  let e := if fst (scaled a e0) <? snd (scaled a e0) * 2 ^ 52
           then e0 - 1 else e0 in
  mkFloat (round_half_even (fst (scaled a e)) (snd (scaled a e))) e.

(** [n / 1000] for an [int] [n]. *)
Definition int_truediv_1000 (n : Z) : result float :=
  if n =? 0 then Ok (mkFloat 0 0)
  else
    let x := nearest_float_1000 (Z.abs n) in
    if (0 <=? expo x) && (2 ^ 1024 <=? mant x * 2 ^ expo x)
    then Raise OverflowError
    else Ok (mkFloat (Z.sgn n * mant x) (expo x)).

(** [v / 1000]; a [bool] is an [int]. *)
Definition truediv_1000 (v : value) : result float :=
  match v with
  | VInt n => int_truediv_1000 n
  | VBool b => int_truediv_1000 (if b then 1 else 0)
  | VNone | VStr _ | VList _ | VDict _ => Raise TypeError
  end.

(** [f"{x:.0f}"]: the integer nearest to the float, ties to even, all
    its digits written, after the sign of the float. *)
Definition format_0f (x : float) : string :=
  let a := Z.abs (mant x) in
  let r := if expo x <? 0 then round_half_even a (2 ^ (- expo x))
           else a * 2 ^ expo x in
  if mant x <? 0 then "-" +:+ pretty r else pretty r.

(** The whole number of seconds nearest to [n] milliseconds, ties to
    even. *)
Definition round_half_even_1000 (n : Z) : Z :=
  let q := n / 1000 in
  let r := n mod 1000 in
  if r <? 500 then q
  else if 500 <? r then q + 1
  else if Z.even q then q else q + 1.

(** ** The world the effectful phases run in *)

Inductive body : Type :=
  | NoBody
  | FileBody (content : string)
  | JsonBody (payload : value).

Record request : Type := mkRequest {
  method : string;
  url : string;
  headers : list (string * string);
  req_body : body
}.

(** [net] lists what the coming HTTP exchanges will produce, each either
    an exception or the decoded JSON body; [sent] records the requests
    issued, [procs] the external commands run, both oldest first.
    [ffmpeg] is the merge tool: what running it with given arguments does
    to the files, or the exception [subprocess.run] raises. *)
Record world : Type := mkWorld {
  environ : gmap string string;
  cwd : string;
  files : gmap string string;
  net : list (result value);
  sent : list request;
  procs : list (list string);
  slept : Z;
  ffmpeg : list string → gmap string string → result (gmap string string)
}.

(** A computation returns a value or raises, in a new world; [None] is a
    call that never returns (no further answer from the backend). *)
Definition M (A : Type) : Type := world → option (result A * world).

Global Instance M_ret : MRet M := λ A a w, Some (Ok a, w).
Global Instance M_bind : MBind M := λ A B f m w,
  match m w with
  | Some (Ok a, w') => f a w'
  | Some (Raise e, w') => Some (Raise e, w')
  | None => None
  end.

Definition lift {A} (r : result A) : M A := λ w, Some (r, w).

Fixpoint mapM_M {A B} (f : A → M B) (xs : list A) : M (list B) :=
  match xs with
  | [] => mret []
  | x :: xs' => y ← f x; ys ← mapM_M f xs'; mret (y :: ys)
  end.

Module Sys.

(** [os.environ.get(k)] *)
Definition environ_get (k : string) : M (option string) :=
  λ w, Some (Ok (environ w !! k), w).

(** [open(p, "rb").read()] *)
Definition read_file (p : Path) : M string := λ w,
  match files w !! path_str p with
  | Some content => Some (Ok content, w)
  | None => Some (Raise FileNotFoundError, w)
  end.

Definition set_files (fs : gmap string string) (w : world) : world :=
  mkWorld (environ w) (cwd w) fs (net w) (sent w) (procs w) (slept w) (ffmpeg w).

(** [p.write_text(content)], also [open(p, "w")] followed by writes. *)
Definition write_text (p : Path) (content : string) : M () := λ w,
  Some (Ok (), set_files (<[path_str p := content]> (files w)) w).

(** [p.mkdir(parents=True, exist_ok=True)].  The world has no
    directories of its own: [files] maps the paths of regular files to
    their contents.  The call is taken to succeed, which it does unless a
    regular file stands where the directory or one of its parents should
    be, or the permissions forbid it. *)
Definition mkdir (p : string) : M () := mret ().

(** [p.unlink()] *)
Definition unlink (p : Path) : M () := λ w,
  match files w !! path_str p with
  | Some _ => Some (Ok (), set_files (delete (path_str p) (files w)) w)
  | None => Some (Raise FileNotFoundError, w)
  end.

(** [p.absolute()] *)
Definition absolute (p : Path) : M Path := λ w,
  match dir p with
  | String "/" _ => Some (Ok p, w)
  | d => Some (Ok (mkPath (cwd w +:+ "/" +:+ d) (stem p) (suffix p)), w)
  end.

(** [subprocess.run(args, capture_output=True)]; the exit status is not
    looked at. *)
Definition subprocess_run (args : list string) : M () := λ w,
  let w' := mkWorld (environ w) (cwd w) (files w) (net w) (sent w)
                    (procs w ++ [args]) (slept w) (ffmpeg w) in
  match ffmpeg w args (files w) with
  | Ok fs => Some (Ok (), set_files fs w')
  | Raise e => Some (Raise e, w')
  end.

(** [time.sleep(s)] *)
Definition sleep (s : Z) : M () := λ w,
  Some (Ok (), mkWorld (environ w) (cwd w) (files w) (net w) (sent w)
                       (procs w) (slept w + s) (ffmpeg w)).

(** One HTTP exchange followed by [.json()]: the request is recorded and
    the next outcome of [net] is consumed. *)
Definition http_json (r : request) : M value := λ w,
  match net w with
  | [] => None
  | o :: rest =>
      Some (o, mkWorld (environ w) (cwd w) (files w) rest (sent w ++ [r])
                       (procs w) (slept w) (ffmpeg w))
  end.

End Sys.

(** [dir / (stem + suffix)] *)
Definition joinpath (d : Path) (st sfx : string) : Path :=
  mkPath (path_str d +:+ "/") st sfx.

(** ** Phase 3: concatenation *)

(** [enumerate(xs)], counting from [k]. *)
Fixpoint enumerate_from {A} (k : nat) (xs : list A) : list (nat * A) :=
  match xs with
  | [] => []
  | x :: xs' => (k, x) :: enumerate_from (S k) xs'
  end.

Definition enumerate {A} (xs : list A) : list (nat * A) := enumerate_from 0 xs.

Definition merged_output (output_dir : Path) (i : nat) : Path :=
  joinpath output_dir ("conversation_" +:+ pretty (i + 1)%nat) ".wav".

Definition merge_filelist (output_dir : Path) (i : nat) : Path :=
  joinpath output_dir ("filelist_" +:+ pretty (i + 1)%nat) ".txt".

(** The command line of the merge tool for conversation [i]. *)
Definition merge_command (output_dir : Path) (i : nat) : list string :=
  ["ffmpeg"; "-y"; "-f"; "concat"; "-safe"; "0";
   "-i"; path_str (merge_filelist output_dir i);
   "-c"; "copy"; path_str (merged_output output_dir i)].

(** The body of the loop over [enumerate(conversations)]: the artifact of
    conversation [i]. *)
Definition concat_one (output_dir : Path) (i : nat) (conv : list Path) : M Path :=
  if (length conv =? 1)%nat then lift (getitem conv 0)
  else
    let output := merged_output output_dir i in
    let filelist := merge_filelist output_dir i in
    lines ← mapM_M (λ chunk, a ← Sys.absolute chunk;
                             mret ("file '" +:+ path_str a +:+ "'" +:+ nl)) conv;
    Sys.write_text filelist (fold_right String.append "" lines);;
    Sys.subprocess_run (merge_command output_dir i);;
    Sys.unlink filelist;;
    mret output.

(** The loop [for i, conv in enumerate(conversations)] and the list of
    artifacts it builds. *)
Definition concat_loop (output_dir : Path) (conversations : list (list Path))
  : M (list Path) :=
  mapM_M (λ '(i, conv), concat_one output_dir i conv) (enumerate conversations).

Definition phase3_concat (conversations : list (list Path)) (output_dir : Path)
  : M (list Path) :=
  Sys.mkdir (path_str output_dir);;
  concat_loop output_dir conversations.

(** ** Phase 4: the providers *)

Section Providers.
Context `{PyRuntime}.

(** One line of the transcript for one utterance. *)
Definition format_utterance (utterance : value) : result string :=
  speaker ← Py.subscript utterance (KStr "speaker");
  text ← Py.subscript utterance (KStr "text");
  ms ← Py.subscript utterance (KStr "start");
  start ← truediv_1000 ms;
  Ok ("**Speaker " +:+ py_str speaker +:+ "** (" +:+ format_0f start
      +:+ "s): " +:+ py_str text).

(** The code after the polling loop: format a completed result. *)
Definition format_result (res : value) : result value :=
  utterances ← Py.get res "utterances" (VList []);
  items ← iterate utterances;
  lines ← mapM (M := result) format_utterance items;
  match lines with
  | _ :: _ => Ok (VStr (str_join (nl +:+ nl) lines))
  | [] => Py.get res "text" (VStr "No text")
  end.

Definition value_is (v : value) (s : string) : bool :=
  match v with
  | VStr t => String.eqb t s
  | _ => false
  end.

(** The polling loop [while True].  It ends with the completed result
    ([inl]) or with the text the function returns at once ([inr]).  Each
    turn consumes one outcome of [net], so a loop started with more fuel
    than [net] has outcomes never runs out of it. *)
Fixpoint poll_loop (fuel : nat) (r : request) : M (value + value) :=
  match fuel with
  | O => λ _, None
  | S fuel' =>
      res ← Sys.http_json r;
      status ← lift (Py.subscript res (KStr "status"));
      if value_is status "completed" then mret (inl res)
      else if value_is status "error" then
        err ← lift (Py.get res "error" (VStr "unknown"));
        mret (inr (VStr ("Error: " +:+ py_str err)))
      else Sys.sleep 3;; poll_loop fuel' r
  end.

Definition poll (r : request) : M (value + value) :=
  λ w, poll_loop (S (length (net w))) r w.

Definition truthy (o : option string) : bool :=
  match o with
  | Some (String _ _) => true
  | Some EmptyString | None => false
  end.

Definition _diarize_assemblyai (audio_path : Path) : M value :=
  api_key ← Sys.environ_get "ASSEMBLYAI_API_KEY";
  if negb (truthy api_key) then mret (VStr "Error: ASSEMBLYAI_API_KEY not set")
  else
    let hdrs := [("authorization", default "" api_key)] in
    content ← Sys.read_file audio_path;
    upload ← Sys.http_json
      (mkRequest "POST" "https://api.assemblyai.com/v2/upload" hdrs
                 (FileBody content));
    upload_url ← lift (Py.subscript upload (KStr "upload_url"));
    resp ← Sys.http_json
      (mkRequest "POST" "https://api.assemblyai.com/v2/transcript" hdrs
                 (JsonBody (VDict [("audio_url", upload_url);
                                   ("speaker_labels", VBool true)])));
    transcript_id ← lift (Py.subscript resp (KStr "id"));
    polled ← poll
      (mkRequest "GET"
         ("https://api.assemblyai.com/v2/transcript/" +:+ py_str transcript_id)
         hdrs NoBody);
    match polled with
    | inr text => mret text
    | inl res => lift (format_result res)
    end.

Definition gemini_prompt : string :=
  "Transcribe this audio with speaker diarization. Format as:" +:+ nl
  +:+ "**Speaker A** (timestamp): text" +:+ nl +:+ nl
  +:+ "Identify different speakers and label them consistently.".

(** [result["candidates"][0]["content"]["parts"][0]["text"]] *)
Definition gemini_text (res : value) : result value :=
  candidates ← Py.subscript res (KStr "candidates");
  candidate ← Py.subscript candidates (KInt 0);
  content ← Py.subscript candidate (KStr "content");
  parts ← Py.subscript content (KStr "parts");
  part ← Py.subscript parts (KInt 0);
  Py.subscript part (KStr "text").

Definition _diarize_gemini (audio_path : Path) : M value :=
  api_key ← Sys.environ_get "GEMINI_API_KEY";
  if negb (truthy api_key) then mret (VStr "Error: GEMINI_API_KEY not set")
  else
    content ← Sys.read_file audio_path;
    res ← Sys.http_json
      (mkRequest "POST"
         ("https://generativelanguage.googleapis.com/v1beta/models/gemini-2.0-flash:generateContent?key="
          +:+ default "" api_key)
         []
         (JsonBody (VDict [("contents", VList [VDict [("parts", VList [
            VDict [("inlineData", VDict [("mimeType", VStr "audio/wav");
                                         ("data", VStr (b64encode content))])];
            VDict [("text", VStr gemini_prompt)]])]])])));
    match gemini_text res with
    | Ok text => mret text
    | Raise KeyError | Raise IndexError =>
        mret (VStr ("Error: " +:+ String.substring 0 200 (json_dumps res)))
    | Raise e => lift (Raise e)
    end.

(** ** Phase 4: the orchestrator *)

Definition separator : string := nl +:+ nl +:+ "---" +:+ nl +:+ nl.

(** The body of the loop over [audio_files]: the text of one audio. *)
Definition diarize_one (provider : string) (audio : Path) : M value :=
  if String.eqb provider "assemblyai" then _diarize_assemblyai audio
  else if String.eqb provider "gemini" then _diarize_gemini audio
  else mret (VStr ("Unknown provider: " +:+ provider)).

Definition phase4_diarize (audio_files : list Path) (transcript_path : Path)
    (provider : string) : M Path :=
  Sys.mkdir (dir transcript_path);;
  all_text ← mapM_M (diarize_one provider) audio_files;
  full_transcript ← lift (join_values separator all_text);
  Sys.write_text transcript_path full_transcript;;
  mret transcript_path.

End Providers.

(** ** Vocabulary of the statements about the providers *)

(** An utterance as the specification describes it: a speaker label, a
    start offset in milliseconds and a text. *)
Record utterance : Type := mkUtterance {
  speaker : string;
  start_ms : Z;
  text : string
}.

(** The JSON object [v] carries the utterance [u]. *)
Definition is_utterance (v : value) (u : utterance) : Prop :=
  Py.subscript v (KStr "speaker") = Ok (VStr (speaker u))
  ∧ Py.subscript v (KStr "text") = Ok (VStr (text u))
  ∧ Py.subscript v (KStr "start") = Ok (VInt (start_ms u))
  ∧ 0 <= start_ms u < 2 ^ 52.

(** The start offset in whole seconds. *)
Definition offset_seconds (u : utterance) : Z :=
  round_half_even_1000 (start_ms u).

(** The line the specification asks for:
    [**Speaker <label>** (<offset>s): <text>]. *)
Definition utterance_line (u : utterance) : string :=
  "**Speaker " +:+ speaker u +:+ "** (" +:+ pretty (offset_seconds u)
  +:+ "s): " +:+ text u.

(** A poll answer whose status is neither [completed] nor [error]. *)
Definition is_pending (res : value) : Prop :=
  ∃ status, Py.subscript res (KStr "status") = Ok status
            ∧ value_is status "completed" = false
            ∧ value_is status "error" = false.

Definition has_status (res : value) (s : string) : Prop :=
  Py.subscript res (KStr "status") = Ok (VStr s).

(** What the backend answers for one conversation of the asynchronous
    provider: to the upload, to the submission, to the polls that find
    the job unfinished, and to the last poll. *)
Record job : Type := mkJob {
  job_upload : value;
  job_submit : value;
  job_pending : list value;
  job_final : value
}.

Definition job_script (j : job) : list (result value) :=
  [Ok (job_upload j); Ok (job_submit j)]
  ++ (Ok <$> job_pending j) ++ [Ok (job_final j)].

(** The job [j] runs to a terminal status and [block] is its text: the
    formatted result of a completed job, or [Error: <message>] for a job
    the backend reports as failed. *)
Definition job_block `{PyRuntime} (j : job) (block : string) : Prop :=
  (∃ upload_url, Py.subscript (job_upload j) (KStr "upload_url") = Ok upload_url)
  ∧ (∃ id, Py.subscript (job_submit j) (KStr "id") = Ok id)
  ∧ Forall is_pending (job_pending j)
  ∧ ((has_status (job_final j) "completed"
      ∧ format_result (job_final j) = Ok (VStr block))
     ∨ (has_status (job_final j) "error"
        ∧ ∃ err, Py.get (job_final j) "error" (VStr "unknown") = Ok err
                 ∧ block = "Error: " +:+ py_str err)).

(** The variable that holds the credential of a provider. *)
Definition credential (provider : string) : string :=
  if String.eqb provider "assemblyai" then "ASSEMBLYAI_API_KEY"
  else "GEMINI_API_KEY".

(** What the backend answers during one conversation, and the text the
    provider returns for it.  Asynchronous provider: the answers of a job
    that reaches a terminal status.  Synchronous provider: one response,
    whose text is returned, or of which a snippet is returned after
    [Error: ] when a key or an index on the way to the text is missing. *)
Inductive exchange `{PyRuntime} : string → list (result value) → string → Prop :=
  | exchange_job (j : job) (block : string) :
      job_block j block →
      exchange "assemblyai" (job_script j) block
  | exchange_text (res : value) (block : string) :
      gemini_text res = Ok (VStr block) →
      exchange "gemini" [Ok res] block
  | exchange_no_text (res : value) :
      gemini_text res = Raise KeyError ∨ gemini_text res = Raise IndexError →
      exchange "gemini" [Ok res]
               ("Error: " +:+ String.substring 0 200 (json_dumps res)).

(** The environment and the files are the same in both worlds. *)
Definition same_store (w w' : world) : Prop :=
  environ w' = environ w ∧ files w' = files w.

(** What the polling loop ends with on the terminal answer [final]. *)
Definition poll_end `{PyRuntime} (final : value) (out : value + value) : Prop :=
  (has_status final "completed" ∧ out = inl final)
  ∨ (has_status final "error"
     ∧ ∃ err, Py.get final "error" (VStr "unknown") = Ok err
              ∧ out = inr (VStr ("Error: " +:+ py_str err))).

(** ** Concrete inputs

    The chunks of the specification's example, variations of them, and a
    backend script for three conversations. *)

Definition chunk_at (stamp : string) : Path :=
  mkPath "/rec/2026-02-28/" ("chunk_" +:+ stamp) ".wav".

Definition example_chunks : list Path :=
  [chunk_at "2026-02-28_10-00-00"; chunk_at "2026-02-28_10-04-00";
   chunk_at "2026-02-28_10-20-00"].

Definition far_chunks : list Path :=
  [chunk_at "2026-02-28_10-00-00"; chunk_at "2026-02-28_10-20-00";
   chunk_at "2026-02-28_11-00-00"].

Definition damaged_chunks : list Path :=
  [chunk_at "2026-02-28_10-00-00"; chunk_at "2026-02-28_10-04-00";
   chunk_at "2026-02-28_10-2x-00"].

Definition swapped_chunks : list Path :=
  [chunk_at "2026-02-28_10-20-00"; chunk_at "2026-02-28_10-04-00"].

(** A runtime for the concrete runs; none of them reaches a call of it. *)
Definition example_runtime : PyRuntime :=
  {| repr_of := λ _, "[]"; json_dumps := λ _, "{}"; b64encode := λ s, s |}.

Definition example_audio (i : nat) : Path :=
  mkPath "/rec/2026-02-28/concat/" ("conversation_" +:+ pretty i) ".wav".

Definition example_transcript : Path :=
  mkPath "/transcripts/" "2026-02-28-diarized" ".md".

Definition example_utterance (label : string) (ms : Z) (said : string) : value :=
  VDict [("speaker", VStr label); ("start", VInt ms); ("end", VInt (ms + 900));
         ("text", VStr said)].

Definition example_completed : value :=
  VDict [("status", VStr "completed");
         ("text", VStr "Hello there. Hi.");
         ("utterances", VList [example_utterance "A" 1500 "Hello there.";
                               example_utterance "B" 2500 "Hi."])].

Definition example_silent : value :=
  VDict [("status", VStr "completed"); ("utterances", VList [])].

Definition example_failed : value :=
  VDict [("status", VStr "error"); ("error", VStr "Audio too short")].

(** Completed results without utterances: [text] is [null], [text] is
    empty, [utterances] is [null]. *)
Definition example_null_text : value :=
  VDict [("status", VStr "completed"); ("text", VNone);
         ("utterances", VList [])].

Definition example_empty_text : value :=
  VDict [("status", VStr "completed"); ("text", VStr "");
         ("utterances", VList [])].

Definition example_null_utterances : value :=
  VDict [("status", VStr "completed"); ("text", VStr "");
         ("utterances", VNone)].

Definition example_job (final : value) : job :=
  mkJob (VDict [("upload_url", VStr "https://cdn.example/upload/1")])
        (VDict [("id", VStr "job-1")])
        [VDict [("status", VStr "queued")]; VDict [("status", VStr "processing")]]
        final.

Definition example_world (key : option string) (script : list (result value))
  : world :=
  mkWorld (from_option (λ k, {[ "ASSEMBLYAI_API_KEY" := k ]}) ∅ key)
          "/home/user"
          (list_to_map [(path_str (example_audio 1), "RIFF1");
                        (path_str (example_audio 2), "RIFF2");
                        (path_str (example_audio 3), "RIFF3")])
          script [] [] 0 (λ _ fs, Ok fs).

Definition example_utterances : list utterance :=
  [mkUtterance "A" 1500 "Hello there."; mkUtterance "B" 2500 "Hi."].

Definition example_block : string :=
  "**Speaker A** (2s): Hello there." +:+ nl +:+ nl +:+ "**Speaker B** (2s): Hi.".

Definition example_jobs : list job :=
  [example_job example_completed; example_job example_failed;
   example_job example_silent].

Definition example_audios : list Path :=
  [example_audio 1; example_audio 2; example_audio 3].

(** The backend answers the first conversation, the connection breaks
    during the upload of the second, and the answers to the third are
    ready. *)
Definition broken_script : list (result value) :=
  job_script (example_job example_completed)
  ++ [Raise ConnectionError]
  ++ job_script (example_job example_silent).

(** ** Vocabulary of the further properties *)

(** From [w] to [w'] nothing but the network and the clock moved: the
    environment, the working directory, the files and the process log are
    the same, requests were added to [sent], as many outcomes were taken
    from the front of [net], and time did not go back. *)
Definition network_only (w w' : world) : Prop :=
  environ w' = environ w ∧ cwd w' = cwd w ∧ files w' = files w
  ∧ procs w' = procs w ∧ slept w <= slept w'
  ∧ ∃ reqs used,
      sent w' = sent w ++ reqs ∧ net w = used ++ net w'
      ∧ length reqs = length used.

(** Every run of [m] that ends, with a value or an exception, moves
    nothing but the network and the clock. *)
Definition keeps_store {A} (m : M A) : Prop :=
  ∀ w r w', m w = Some (r, w') → network_only w w'.

(** The requests of the asynchronous provider. *)
Definition upload_request (api_key content : string) : request :=
  mkRequest "POST" "https://api.assemblyai.com/v2/upload"
            [("authorization", api_key)] (FileBody content).

Definition submit_request (api_key : string) (upload_url : value) : request :=
  mkRequest "POST" "https://api.assemblyai.com/v2/transcript"
            [("authorization", api_key)]
            (JsonBody (VDict [("audio_url", upload_url);
                              ("speaker_labels", VBool true)])).

Definition poll_request `{PyRuntime} (api_key : string) (id : value) : request :=
  mkRequest "GET"
            ("https://api.assemblyai.com/v2/transcript/" +:+ py_str id)
            [("authorization", api_key)] NoBody.

(** The indices of the conversations that are merged: those whose size is
    not 1, in order. *)
Definition merged_indices (conversations : list (list Path)) : list nat :=
  fst <$> filter (λ p, length (snd p) ≠ 1%nat) (enumerate conversations).

(** The line of the list file for a chunk whose path is absolute. *)
Definition filelist_line (chunk : Path) : string :=
  "file '" +:+ path_str chunk +:+ "'" +:+ nl.

Definition is_absolute (p : Path) : Prop :=
  ∃ d, dir p = String "/" d.

(** ** Names of chunks

    The stem the comment of the segmentation loop describes,
    [chunk_YYYY-MM-DD_HH-MM-SS], for a chunk recorded at [t]: every field
    in decimal, padded with zeros. *)

Definition digit_char (k : Z) : ascii := ascii_of_nat (48 + Z.to_nat k).

Definition pad2 (n : Z) : string :=
  String (digit_char (n / 10)) (String (digit_char (n mod 10)) "").

Definition pad4 (n : Z) : string := pad2 (n / 100) +:+ pad2 (n mod 100).

Definition chunk_stamp (t : datetime) : string :=
  pad4 (year t) +:+ "-" +:+ pad2 (month t) +:+ "-" +:+ pad2 (day t) +:+ "_"
  +:+ pad2 (hour t) +:+ "-" +:+ pad2 (minute t) +:+ "-" +:+ pad2 (second t).

Definition chunk_stem (t : datetime) : string := "chunk_" +:+ chunk_stamp t.

(** Checks run on every value of a field: the group of the field matches
    the written field whole and first, [int] reads the value back, and
    the letter [c] does not occur. *)
Definition field_ok (g : Regex.group) (s : string) (n : Z) : bool :=
  match head (Regex.match_group g s) with
  | Some (m, r) =>
      String.eqb m s && String.eqb r "" && (PyStr.py_int s =? n)
      && forallb (λ p : Regex.alt, (length p <=? String.length s)%nat) g
  | None => false
  end.

Fixpoint has_no_c (s : string) : bool :=
  match s with
  | EmptyString => true
  | String a s' => negb (Ascii.eqb "c" a) && has_no_c s'
  end.

(** ** Phase 1: speech detection *)

(** What [subprocess.run(args, ..., timeout=30)] does: it returns, the
    tool having changed the files; the tool is stopped at the timeout and
    [TimeoutExpired] is raised; or the call raises another exception
    ([FileNotFoundError] when the tool is not installed). *)
Inductive run_outcome : Type :=
  | RunReturned (fs : gmap string string)
  | RunTimedOut (fs : gmap string string)
  | RunRaised (e : exn).

(** The detector and the JSON decoder [json.loads], which the model
    leaves open. *)
Class SpeechHost : Type := {
  whisper : list string → gmap string string → run_outcome;
  json_loads : string → result value
}.

(** [str.isspace] on one character. *)
Definition is_space (c : ascii) : bool :=
  let n := nat_of_ascii c in
  ((9 <=? n) && (n <=? 13))%nat || ((28 <=? n) && (n <=? 32))%nat
  || (n =? 133)%nat || (n =? 160)%nat.

Fixpoint lstrip (s : string) : string :=
  match s with
  | EmptyString => EmptyString
  | String c s' => if is_space c then lstrip s' else s
  end.

Fixpoint rstrip (s : string) : string :=
  match s with
  | EmptyString => EmptyString
  | String c s' =>
      match rstrip s' with
      | EmptyString => if is_space c then EmptyString else String c EmptyString
      | r => String c r
      end
  end.

(** [v.strip()]: only a [str] has the method. *)
Definition str_strip (v : value) : result string :=
  match v with
  | VStr s => Ok (rstrip (lstrip s))
  | _ => Raise AttributeError
  end.

Definition whisper_command (chunk : Path) : list string :=
  ["whisper"; path_str chunk; "--model"; "tiny"; "--language"; "en";
   "--output_format"; "json"; "--output_dir"; "/tmp/clawhark_whisper"].

(** [Path(f"/tmp/clawhark_whisper/{chunk.stem}.json")] *)
Definition whisper_json (chunk : Path) : Path :=
  mkPath "/tmp/clawhark_whisper/" (stem chunk) ".json".

Section Detection.
Context `{SpeechHost}.

(** The [try] block after the detector has returned: whether the chunk is
    appended to [speech_chunks]. *)
Definition read_detection (chunk : Path) : M bool := λ w,
  match files w !! path_str (whisper_json chunk) with
  | None => Some (Ok false, w)
  | Some content =>
      (data ← lift (json_loads content);
       text ← lift (Py.get data "text" (VStr ""));
       stripped ← lift (str_strip text);
       Sys.unlink (whisper_json chunk);;
       mret (10 <? String.length stripped)%nat) w
  end.

(** The handler [except (subprocess.TimeoutExpired, FileNotFoundError)]
    around a block: the chunk is appended. *)
Definition keep_on_missing (block : M bool) : M bool := λ w,
  match block w with
  | Some (Raise FileNotFoundError, w') => Some (Ok true, w')
  | r => r
  end.

(** The body of the loop over [chunks]. *)
Definition detect_one (chunk : Path) : M bool := λ w,
  let w0 := mkWorld (environ w) (cwd w) (files w) (net w) (sent w)
                    (procs w ++ [whisper_command chunk]) (slept w) (ffmpeg w) in
  match whisper (whisper_command chunk) (files w) with
  | RunRaised FileNotFoundError => Some (Ok true, w0)
  | RunRaised e => Some (Raise e, w0)
  | RunTimedOut fs => Some (Ok true, Sys.set_files fs w0)
  | RunReturned fs => keep_on_missing (read_detection chunk) (Sys.set_files fs w0)
  end.

Fixpoint detect_loop (chunks speech_chunks : list Path) : M (list Path) :=
  match chunks with
  | [] => mret speech_chunks
  | chunk :: rest =>
      detect_one chunk ≫= λ keep : bool,
        detect_loop rest
          (if keep then speech_chunks ++ [chunk] else speech_chunks)
  end.

Definition phase1_detect_speech (date_dir : Path) (chunks : list Path)
  : M (list Path) :=
  detect_loop chunks [].

End Detection.

(** ** Concrete inputs of the further properties *)

Definition gemini_world (script : list (result value)) : world :=
  mkWorld {[ "GEMINI_API_KEY" := "secret" ]} "/home/user"
          (list_to_map [(path_str (example_audio 1), "RIFF1")])
          script [] [] 0 (λ _ fs, Ok fs).

(** A world without the merge tool. *)
Definition toolless_world : world :=
  mkWorld ∅ "/home/user" ∅ [] [] [] 0 (λ _ _, Raise FileNotFoundError).

Definition example_refused : value :=
  VDict [("error", VStr "Authentication error, API token missing/invalid")].

Definition example_output_dir : Path := mkPath "/rec/2026-02-28/" "concat" "".

(** A world with the credential of the asynchronous provider, no file,
    and a merge tool that returns without writing anything. *)
Definition unmerged_world : world :=
  mkWorld {[ "ASSEMBLYAI_API_KEY" := "secret" ]} "/home/user" ∅ [] [] [] 0
          (λ _ fs, Ok fs).

Definition example_pair : list Path :=
  [chunk_at "2026-02-28_10-00-00"; chunk_at "2026-02-28_10-04-00"].

(** A detector that is not installed, one that runs and writes nothing,
    and one that writes its result for the first chunk of the example. *)
Definition absent_detector : SpeechHost :=
  {| whisper := λ _ _, RunRaised FileNotFoundError;
     json_loads := λ _, Raise ValueError |}.

Definition idle_detector : SpeechHost :=
  {| whisper := λ _ fs, RunReturned fs;
     json_loads := λ _, Raise ValueError |}.

Definition writing_detector : SpeechHost :=
  {| whisper := λ _ fs,
       RunReturned
         (<[path_str (whisper_json (chunk_at "2026-02-28_10-00-00"))
            := "{text}"]> fs);
     json_loads := λ s,
       if String.eqb s "{text}"
       then Ok (VDict [("text", VStr "  Good morning, everyone.  ")])
       else Raise ValueError |}.

(** * Properties *)

(** ** [str.split]: the cuts allowed are enough *)

Lemma strip_prefix_length p s r :
  PyStr.strip_prefix p s = Some r →
  String.length s = (String.length p + String.length r)%nat.
Proof.
  revert s. induction p as [|a p IH]; intros [|b s]; simpl; try done.
  - by intros [= <-].
  - by intros [= <-].
  - destruct (Ascii.eqb a b); [|done]. intros Hr. by rewrite (IH _ Hr).
Qed.

Lemma find_length sep s before after :
  PyStr.find sep s = Some (before, after) →
  String.length s
  = (String.length before + String.length sep + String.length after)%nat.
Proof.
  revert before. induction s as [|c s IH]; intros before.
  - cbn [PyStr.find].
    destruct (PyStr.strip_prefix sep "") as [r|] eqn:Hp; [|done].
    intros [= <- <-]. pose proof (strip_prefix_length _ _ _ Hp). simpl in *. lia.
  - cbn [PyStr.find].
    destruct (PyStr.strip_prefix sep (String c s)) as [r|] eqn:Hp.
    + intros [= <- <-]. pose proof (strip_prefix_length _ _ _ Hp).
      simpl in *. lia.
    + destruct (PyStr.find sep s) as [[b a]|]; [|done].
      intros [= <- <-]. pose proof (IH b eq_refl). simpl in *. lia.
Qed.

(** With a non-empty separator, more fuel than the length of the string
    changes nothing: [split] makes every cut. *)
Lemma split_aux_enough sep s fuel :
  sep ≠ "" → (String.length s ≤ fuel)%nat →
  PyStr.split_aux fuel sep s = PyStr.split sep s.
Proof.
  intros Hsep. unfold PyStr.split.
  remember (String.length s) as n eqn:Hn.
  revert s fuel Hn. induction n as [n IH] using lt_wf_ind.
  intros s fuel -> Hfuel.
  destruct (PyStr.find sep s) as [[before after]|] eqn:Hfind.
  - pose proof (find_length _ _ _ _ Hfind) as Hlen.
    assert (0 < String.length sep)%nat by (destruct sep; [done|simpl; lia]).
    destruct fuel as [|fuel]; [lia|].
    destruct (String.length s) as [|m] eqn:Hm; [lia|].
    simpl. rewrite Hfind. f_equal.
    rewrite (IH (String.length after) ltac:(lia) after fuel eq_refl ltac:(lia)).
    by rewrite (IH (String.length after) ltac:(lia) after m eq_refl ltac:(lia)).
  - destruct fuel, (String.length s); simpl; by rewrite ?Hfind.
Qed.

(** ** Timestamps and gaps *)

Lemma strptime_raises data_string e :
  Datetime.strptime data_string = Raise e → e = ValueError.
Proof.
  unfold Datetime.strptime, Datetime.make.
  repeat case_match; congruence.
Qed.

Lemma chunk_time_raises chunk_name e :
  chunk_time chunk_name = Raise e → e = ValueError ∨ e = IndexError.
Proof.
  unfold chunk_time, getitem.
  destruct (PyStr.split "chunk_" chunk_name !! 1%nat) as [part|]; simpl.
  - intros Hp. left. by eapply strptime_raises.
  - intros [= <-]. by right.
Qed.

Lemma pair_gap_parsed prev_name curr_name prev_time curr_time :
  chunk_time prev_name = Ok prev_time →
  chunk_time curr_name = Ok curr_time →
  pair_gap prev_name curr_name
  = Ok (Datetime.total_seconds (Datetime.sub curr_time prev_time)).
Proof. intros Hp Hc. unfold pair_gap. by rewrite Hp, Hc. Qed.

Lemma pair_gap_unparseable prev_name curr_name :
  (∃ e, chunk_time prev_name = Raise e) ∨ (∃ e, chunk_time curr_name = Raise e) →
  pair_gap prev_name curr_name = Ok 300.
Proof.
  unfold pair_gap.
  destruct (chunk_time prev_name) as [tp|ep] eqn:Hp; simpl.
  - intros [[e [=]]|[e Hc]]. rewrite Hc.
    apply chunk_time_raises in Hc as [-> | ->]; reflexivity.
  - intros _. apply chunk_time_raises in Hp as [-> | ->]; reflexivity.
Qed.

Lemma pair_gap_total prev_name curr_name :
  ∃ gap, pair_gap prev_name curr_name = Ok gap.
Proof.
  destruct (chunk_time prev_name) as [tp|ep] eqn:Hp.
  - destruct (chunk_time curr_name) as [tc|ec] eqn:Hc.
    + eexists. by apply pair_gap_parsed.
    + exists 300. apply pair_gap_unparseable. right. by exists ec.
  - exists 300. apply pair_gap_unparseable. left. by exists ep.
Qed.

Lemma total_seconds_sub a b :
  Datetime.total_seconds (Datetime.sub a b)
  = (Datetime.toordinal a - Datetime.toordinal b) * 86400
    + (second a + minute a * 60 + hour a * 3600)
    - (second b + minute b * 60 + hour b * 3600).
Proof.
  unfold Datetime.total_seconds, Datetime.sub, Datetime.delta. simpl.
  set (s := second a + minute a * 60 + hour a * 3600
            - (second b + minute b * 60 + hour b * 3600)).
  pose proof (Z.div_mod s 86400 ltac:(lia)). lia.
Qed.

(** ** The segmentation loop *)

Lemma foldM_app {A B} (f : A → B → result A) (a : A) (xs ys : list B) :
  foldM f a (xs ++ ys) = (a' ← foldM f a xs; foldM f a' ys).
Proof.
  revert a. induction xs as [|x xs IH]; intros a; simpl; [done|].
  destruct (f a x) as [a'|e]; simpl; [apply IH | done].
Qed.

Lemma group_starts_from_snoc {A} (off : nat) (gs : list (list A)) (g : list A) :
  group_starts_from off (gs ++ [g])
  = group_starts_from off gs ++ [(off + length (concat gs))%nat].
Proof.
  revert off. induction gs as [|g' gs IH]; intros off; simpl.
  - f_equal. lia.
  - rewrite IH, length_app. do 3 f_equal. lia.
Qed.

Lemma length_group_starts_from {A} (off : nat) (gs : list (list A)) :
  length (group_starts_from off gs) = length gs.
Proof. revert off. induction gs; intros; simpl; auto. Qed.

Lemma gap_at_lookup chunks i prev curr :
  chunks !! (i - 1)%nat = Some prev → chunks !! i = Some curr →
  gap_at chunks i = pair_gap (stem prev) (stem curr).
Proof. intros Hp Hc. unfold gap_at, getitem. by rewrite Hp, Hc. Qed.

Lemma segment_loop chunks chunk0 rest k :
  chunks = chunk0 :: rest → (k ≤ length rest)%nat →
  ∃ conversations current,
    foldM (segment_step chunks) ([], [chunk0]) (seq 1 k)
      = Ok (conversations, current)
    ∧ concat conversations ++ current = take (S k) chunks
    ∧ current ≠ []
    ∧ Forall (λ g, g ≠ []) conversations
    ∧ group_starts (conversations ++ [current])
      = 0%nat :: filter (λ i, new_group_at chunks i = true) (seq 1 k).
Proof.
  intros Hchunks. induction k as [|k IH]; intros Hk.
  - exists [], [chunk0]. subst chunks. simpl. repeat split; auto.
  - destruct IH as (convs & cur & Hrun & Hcat & Hne & Hall & Hst); [lia|].
    assert (Hlen : length chunks = S (length rest)) by (by subst chunks).
    destruct (lookup_lt_is_Some_2 chunks k) as [prev Hprev]; [lia|].
    destruct (lookup_lt_is_Some_2 chunks (S k)) as [curr Hcurr]; [lia|].
    destruct (pair_gap_total (stem prev) (stem curr)) as [gap Hgap].
    assert (Hnew : new_group_at chunks (S k) = (600 <? gap)).
    { unfold new_group_at.
      rewrite (gap_at_lookup chunks (S k) prev curr), Hgap; auto.
      by replace (S k - 1)%nat with k by lia. }
    rewrite seq_S, foldM_app, Hrun, filter_app. simpl.
    unfold getitem. replace (k - 0)%nat with k by lia.
    rewrite Hprev, Hcurr. simpl. rewrite Hgap. simpl.
    rewrite (take_S_r _ _ _ Hcurr), <- Hcat.
    destruct (600 <? gap) eqn:Hcmp; simpl.
    + exists (convs ++ [cur]), [curr]. repeat split; auto.
      * by rewrite concat_app; simpl; rewrite app_nil_r.
      * apply Forall_app; split; auto.
      * unfold group_starts in *. rewrite group_starts_from_snoc, Hst.
        rewrite filter_cons_True by done. rewrite filter_nil.
        rewrite app_comm_cons. f_equal. f_equal.
        rewrite concat_app. simpl. rewrite app_nil_r, Hcat.
        rewrite length_take_le; lia.
    + exists convs, (cur ++ [curr]). repeat split; auto.
      * by rewrite app_assoc.
      * by destruct cur.
      * unfold group_starts in *.
        rewrite group_starts_from_snoc.
        rewrite group_starts_from_snoc in Hst. rewrite Hst.
        rewrite filter_cons_False by (rewrite Hnew; done).
        by rewrite filter_nil, app_nil_r.
Qed.

(** What [phase2_segment] returns on a non-empty list: groups that
    concatenate to the input, none empty, and that start exactly where
    the gap test succeeds. *)
Lemma phase2_segment_spec chunks :
  chunks ≠ [] →
  ∃ groups,
    phase2_segment chunks = Ok groups
    ∧ concat groups = chunks
    ∧ Forall (λ g, g ≠ []) groups
    ∧ group_starts groups
      = 0%nat :: filter (λ i, new_group_at chunks i = true)
                        (seq 1 (length chunks - 1)).
Proof.
  destruct chunks as [|chunk0 rest]; [done|]. intros _.
  destruct (segment_loop (chunk0 :: rest) chunk0 rest (length rest))
    as (convs & cur & Hrun & Hcat & Hne & Hall & Hst); auto.
  exists (convs ++ [cur]). unfold phase2_segment.
  replace (length (chunk0 :: rest) - 1)%nat with (length rest)
    by (simpl; lia).
  rewrite Hrun. simpl. repeat split.
  - rewrite concat_app. simpl. rewrite app_nil_r, Hcat.
    apply take_ge. simpl. lia.
  - apply Forall_app; split; auto.
  - replace (length rest - 0)%nat with (length rest) by lia. exact Hst.
Qed.

Lemma gap_at_total chunks i :
  (0 < i < length chunks)%nat → ∃ gap, gap_at chunks i = Ok gap.
Proof.
  intros Hi.
  destruct (lookup_lt_is_Some_2 chunks (i - 1)) as [prev Hprev]; [lia|].
  destruct (lookup_lt_is_Some_2 chunks i) as [curr Hcurr]; [lia|].
  rewrite (gap_at_lookup _ _ _ _ Hprev Hcurr). apply pair_gap_total.
Qed.

Lemma group_start_iff chunks (groups : list (list Path)) i :
  group_starts groups
  = 0%nat :: filter (λ i, new_group_at chunks i = true)
                    (seq 1 (length chunks - 1)) →
  (0 < i < length chunks)%nat →
  i ∈ group_starts groups ↔ new_group_at chunks i = true.
Proof.
  intros -> Hi. rewrite elem_of_cons, list_elem_of_filter, elem_of_seq.
  split; [intros [?|[? _]]; [lia|done] | intros ?; right; split; [done|lia]].
Qed.

Lemma filter_none {A} (P : A → Prop) `{∀ x, Decision (P x)} (l : list A) :
  (∀ x, x ∈ l → ¬ P x) → filter P l = [].
Proof.
  induction l as [|x l IH]; intros Hl; [done|].
  rewrite filter_cons_False by (apply Hl; left).
  apply IH. intros y Hy. apply Hl. by right.
Qed.

Lemma filter_all {A} (P : A → Prop) `{∀ x, Decision (P x)} (l : list A) :
  (∀ x, x ∈ l → P x) → filter P l = l.
Proof.
  induction l as [|x l IH]; intros Hl; [done|].
  rewrite filter_cons_True by (apply Hl; left).
  f_equal. apply IH. intros y Hy. apply Hl. by right.
Qed.

Lemma length_filter_mono {A} (P Q : A → Prop)
    `{∀ x, Decision (P x)} `{∀ x, Decision (Q x)} (l : list A) :
  (∀ x, x ∈ l → P x → Q x) →
  (length (filter P l) ≤ length (filter Q l))%nat.
Proof.
  induction l as [|x l IH]; intros Hl; [done|].
  assert (IH' : (length (filter P l) ≤ length (filter Q l))%nat).
  { apply IH. intros y Hy. apply Hl. by right. }
  destruct (decide (P x)) as [HP|HP].
  - rewrite (filter_cons_True P) by done.
    rewrite (filter_cons_True Q) by (apply Hl; [left|done]).
    simpl. lia.
  - rewrite (filter_cons_False P) by done.
    destruct (decide (Q x)).
    + rewrite (filter_cons_True Q) by done. simpl. lia.
    + by rewrite (filter_cons_False Q) by done.
Qed.

Lemma length_concat_ge {A} (gs : list (list A)) :
  Forall (λ g, g ≠ []) gs → (length gs ≤ length (concat gs))%nat.
Proof.
  induction 1 as [|g gs Hg _ IH]; simpl; [done|].
  rewrite length_app. destruct g; [done|]. simpl. lia.
Qed.

Lemma singletons_of_length {A} (gs : list (list A)) :
  Forall (λ g, g ≠ []) gs → length (concat gs) = length gs →
  Forall (λ g, length g = 1%nat) gs.
Proof.
  induction 1 as [|g gs Hg Hgs IH]; simpl; [done|].
  rewrite length_app. intros Hlen.
  pose proof (length_concat_ge gs Hgs).
  destruct g as [|x g]; [done|]. simpl in *.
  constructor; [simpl; lia | apply IH; lia].
Qed.

Lemma length_groups chunks (groups : list (list Path)) :
  group_starts groups
  = 0%nat :: filter (λ i, new_group_at chunks i = true)
                    (seq 1 (length chunks - 1)) →
  length groups
  = S (length (filter (λ i, new_group_at chunks i = true)
                      (seq 1 (length chunks - 1)))).
Proof.
  intros Hst. unfold group_starts in Hst.
  by rewrite <- (length_group_starts_from 0 groups), Hst.
Qed.

(** C1: on a non-empty chunk sequence [phase2_segment] returns groups that
    are all non-empty and whose concatenation, in output order, is the
    input sequence itself. *)
Theorem segment_partitions_input (chunks : list Path) :
  chunks ≠ [] →
  ∃ groups,
    phase2_segment chunks = Ok groups
    ∧ Forall (λ g, g ≠ []) groups
    ∧ concat groups = chunks.
Proof.
  intros Hne.
  destruct (phase2_segment_spec chunks Hne) as (groups & Hrun & Hcat & Hall & _).
  by exists groups.
Qed.

(** C10: on the empty chunk list [phase2_segment] returns the empty list
    of groups. *)
Theorem segment_empty : phase2_segment [] = Ok [].
Proof. reflexivity. Qed.

(** C4: on a non-empty chunk sequence the groups returned concatenate to
    the input, and one of them starts at index [i > 0] exactly when the gap computed between [chunks[i-1]] and [chunks[i]]
    exceeds 600; when no gap exceeds 600 there is one group, and when
    every gap does there are as many groups as chunks, each of one
    chunk. *)
Theorem segment_splits_iff_gap_exceeds (chunks : list Path) :
  chunks ≠ [] →
  ∃ groups,
    phase2_segment chunks = Ok groups
    ∧ concat groups = chunks
    ∧ (∀ i, (0 < i < length chunks)%nat →
         ∃ gap, gap_at chunks i = Ok gap
                ∧ (i ∈ group_starts groups ↔ 600 < gap))
    ∧ ((∀ i gap, (0 < i < length chunks)%nat →
          gap_at chunks i = Ok gap → gap <= 600) →
       length groups = 1%nat)
    ∧ ((∀ i gap, (0 < i < length chunks)%nat →
          gap_at chunks i = Ok gap → 600 < gap) →
       length groups = length chunks
       ∧ Forall (λ g, length g = 1%nat) groups).
Proof.
  intros Hne.
  destruct (phase2_segment_spec chunks Hne) as (groups & Hrun & Hcat & Hall & Hst).
  exists groups. split; [done|]. split; [done|].
  pose proof (length_groups _ _ Hst) as Hlen.
  split; [|split].
  - intros i Hi. destruct (gap_at_total chunks i Hi) as [gap Hgap].
    exists gap. split; [done|].
    rewrite (group_start_iff _ _ _ Hst Hi). unfold new_group_at.
    rewrite Hgap. apply Z.ltb_lt.
  - intros Hsmall. rewrite Hlen, filter_none; [done|].
    intros i Hi%elem_of_seq.
    destruct (gap_at_total chunks i) as [gap Hgap]; [lia|].
    unfold new_group_at. rewrite Hgap.
    specialize (Hsmall i gap ltac:(lia) Hgap).
    intros ?%Z.ltb_lt. lia.
  - intros Hbig.
    assert (Hn : length groups = length chunks).
    { rewrite Hlen, filter_all.
      - rewrite length_seq. destruct chunks; [done|]. simpl. lia.
      - intros i Hi%elem_of_seq.
        destruct (gap_at_total chunks i) as [gap Hgap]; [lia|].
        unfold new_group_at. rewrite Hgap. apply Z.ltb_lt.
        apply (Hbig i); [lia|done]. }
    split; [done|].
    apply singletons_of_length; [done|]. by rewrite Hcat.
Qed.

(** ** Order of datetimes and sign of the gap *)

Lemma make_valid y m d H Mi Se t :
  Datetime.make y m d H Mi Se = Ok t → valid_datetime t.
Proof.
  unfold Datetime.make. case_match eqn:Hc; [|done]. intros [= <-].
  repeat (apply andb_prop in Hc as [Hc ?]).
  unfold valid_datetime. simpl. lia.
Qed.

Lemma strptime_valid data_string t :
  Datetime.strptime data_string = Ok t → valid_datetime t.
Proof.
  unfold Datetime.strptime. repeat case_match; try done. apply make_valid.
Qed.

Lemma chunk_time_valid chunk_name t :
  chunk_time chunk_name = Ok t → valid_datetime t.
Proof.
  unfold chunk_time. destruct (getitem _ _); simpl; [|done].
  apply strptime_valid.
Qed.

Lemma days_in_month_bounds y m : 28 <= Datetime.days_in_month y m <= 31.
Proof. unfold Datetime.days_in_month. repeat case_match; lia. Qed.

Lemma days_before_month_aux_mono y (n n' : nat) :
  (n ≤ n')%nat →
  Datetime.days_before_month_aux y n <= Datetime.days_before_month_aux y n'.
Proof.
  induction 1 as [|n' _ IH]; [lia|]. simpl.
  pose proof (days_in_month_bounds y (Z.of_nat (S n'))). lia.
Qed.

Lemma days_before_month_succ y m :
  1 <= m →
  Datetime.days_before_month y (m + 1)
  = Datetime.days_before_month y m + Datetime.days_in_month y m.
Proof.
  intros Hm. unfold Datetime.days_before_month.
  replace (Z.to_nat (m + 1 - 1)) with (S (Z.to_nat (m - 1))) by lia.
  simpl Datetime.days_before_month_aux. do 2 f_equal. lia.
Qed.

Lemma days_before_month_mono y m m' :
  m <= m' → Datetime.days_before_month y m <= Datetime.days_before_month y m'.
Proof.
  intros Hm. apply days_before_month_aux_mono. lia.
Qed.

Lemma days_before_month_13 y : Datetime.days_before_month y 13 = year_length y.
Proof.
  unfold Datetime.days_before_month, year_length. simpl.
  unfold Datetime.days_in_month. simpl.
  destruct (Datetime.is_leap y); reflexivity.
Qed.

Lemma days_before_year_succ y :
  Datetime.days_before_year (y + 1) = Datetime.days_before_year y + year_length y.
Proof.
  unfold Datetime.days_before_year, year_length, Datetime.is_leap.
  replace (y + 1 - 1) with y by lia.
  destruct (y mod 4 =? 0) eqn:H4; destruct (y mod 100 =? 0) eqn:H100;
    destruct (y mod 400 =? 0) eqn:H400; simpl;
    rewrite ?Z.eqb_eq, ?Z.eqb_neq in *;
    Z.to_euclidean_division_equations; lia.
Qed.

Lemma days_before_year_mono_nat y (n : nat) :
  Datetime.days_before_year y + 365 * Z.of_nat n
  <= Datetime.days_before_year (y + Z.of_nat n).
Proof.
  induction n as [|n IH]; [replace (y + Z.of_nat 0) with y by lia; lia|].
  replace (y + Z.of_nat (S n)) with (y + Z.of_nat n + 1) by lia.
  rewrite days_before_year_succ. unfold year_length.
  destruct (Datetime.is_leap _); lia.
Qed.

Lemma days_before_year_mono y y' :
  y <= y' → Datetime.days_before_year y <= Datetime.days_before_year y'.
Proof.
  intros Hy.
  pose proof (days_before_year_mono_nat y (Z.to_nat (y' - y))) as Hm.
  replace (y + Z.of_nat (Z.to_nat (y' - y))) with y' in Hm by lia. lia.
Qed.

(** Day of the year of a valid date: between 1 and the year's length. *)
Lemma day_of_year_bounds t :
  valid_datetime t →
  1 <= Datetime.days_before_month (year t) (month t) + day t
    <= year_length (year t).
Proof.
  intros (_ & Hm & Hd & _).
  pose proof (days_before_month_mono (year t) 1 (month t) ltac:(lia)) as H1.
  pose proof (days_before_month_mono (year t) (month t + 1) 13 ltac:(lia)) as H2.
  rewrite days_before_month_succ in H2 by lia.
  rewrite days_before_month_13 in H2.
  change (Datetime.days_before_month (year t) 1) with 0 in H1. lia.
Qed.

Lemma toordinal_lt_year a b :
  valid_datetime a → valid_datetime b → year a < year b →
  Datetime.toordinal a < Datetime.toordinal b.
Proof.
  intros Ha Hb Hy. unfold Datetime.toordinal.
  pose proof (day_of_year_bounds a Ha).
  pose proof (day_of_year_bounds b Hb).
  pose proof (days_before_year_succ (year a)).
  pose proof (days_before_year_mono (year a + 1) (year b) ltac:(lia)).
  lia.
Qed.

Lemma toordinal_lt_month a b :
  valid_datetime a → valid_datetime b →
  year a = year b → month a < month b →
  Datetime.toordinal a < Datetime.toordinal b.
Proof.
  intros (_ & Hma & Hda & _) (_ & Hmb & Hdb & _) Hy Hm.
  unfold Datetime.toordinal. rewrite Hy in *.
  pose proof (days_before_month_mono (year b) (month a + 1) (month b) ltac:(lia)) as H1.
  rewrite days_before_month_succ in H1 by lia. lia.
Qed.

Lemma datetime_ltb_timestamp a b :
  valid_datetime a → valid_datetime b →
  datetime_ltb a b = true → timestamp a < timestamp b.
Proof.
  intros Ha Hb. unfold datetime_ltb, datetime_fields. simpl lex_ltb.
  repeat first [rewrite orb_true_iff | rewrite andb_true_iff].
  rewrite !Z.ltb_lt, !Z.eqb_eq.
  intros Hlt. unfold timestamp.
  assert (Hcases : Datetime.toordinal a < Datetime.toordinal b
          ∨ (Datetime.toordinal a = Datetime.toordinal b
             ∧ hour a * 3600 + minute a * 60 + second a
               < hour b * 3600 + minute b * 60 + second b)).
  { destruct Hlt as [Hy|[Hy [Hm|[Hm [Hd|[Hd Hrest]]]]]].
    - left. by apply toordinal_lt_year.
    - left. by apply toordinal_lt_month.
    - left. unfold Datetime.toordinal. rewrite Hy, Hm. lia.
    - right. split; [unfold Datetime.toordinal; by rewrite Hy, Hm, Hd|].
      destruct Ha as (_ & _ & _ & ? & ? & ?).
      destruct Hb as (_ & _ & _ & ? & ? & ?).
      destruct Hrest as [?|[? [?|[? [?|[? ?]]]]]]; try done; lia. }
  destruct Ha as (_ & _ & _ & ? & ? & ?).
  destruct Hb as (_ & _ & _ & ? & ? & ?). lia.
Qed.

Lemma gap_negative_of_earlier prev_time curr_time :
  valid_datetime prev_time → valid_datetime curr_time →
  datetime_ltb curr_time prev_time = true →
  Datetime.total_seconds (Datetime.sub curr_time prev_time) < 0.
Proof.
  intros Hp Hc Hlt.
  pose proof (datetime_ltb_timestamp _ _ Hc Hp Hlt) as Hts.
  rewrite total_seconds_sub. unfold timestamp in Hts. lia.
Qed.

(** C3: [phase2_segment] never raises and returns groups that concatenate
    to the input; a consecutive pair with a member
    whose timestamp does not parse gets the gap 300 and does not start a
    group; and the number of groups is at most that of any sequence of
    the same length that splits like this one at every pair whose
    timestamps both parse. *)
Theorem unparseable_timestamps_merge (chunks : list Path) :
  ∃ groups,
    phase2_segment chunks = Ok groups
    ∧ concat groups = chunks
    ∧ (∀ i, (0 < i)%nat → unparseable_at chunks i →
         gap_at chunks i = Ok 300 ∧ i ∉ group_starts groups)
    ∧ (∀ chunks' groups',
         length chunks' = length chunks →
         phase2_segment chunks' = Ok groups' →
         (∀ i, (0 < i < length chunks)%nat →
            unparseable_at chunks i
            ∨ new_group_at chunks' i = new_group_at chunks i) →
         (length groups ≤ length groups')%nat).
Proof.
  destruct chunks as [|chunk0 rest].
  { exists []. split; [done|]. split; [done|]. split.
    - intros i _ (prev & curr & Hp & _). done.
    - intros chunks' groups' Hlen _ _. simpl. lia. }
  destruct (phase2_segment_spec (chunk0 :: rest) ltac:(done))
    as (groups & Hrun & Hcat & Hall & Hst).
  set (chunks := chunk0 :: rest) in *.
  exists groups. split; [done|]. split; [done|]. split.
  - intros i Hi (prev & curr & Hp & Hc & Hbad).
    assert (Hgap : gap_at chunks i = Ok 300).
    { rewrite (gap_at_lookup _ _ _ _ Hp Hc). by apply pair_gap_unparseable. }
    split; [done|].
    apply lookup_lt_Some in Hc.
    rewrite (group_start_iff _ _ _ Hst) by lia.
    unfold new_group_at. by rewrite Hgap.
  - intros chunks' groups' Hlen Hrun' Hagree.
    assert (Hne' : chunks' ≠ []) by (by destruct chunks').
    destruct (phase2_segment_spec chunks' Hne')
      as (groups'' & Hrun'' & _ & _ & Hst').
    rewrite Hrun' in Hrun''. injection Hrun'' as <-.
    rewrite (length_groups _ _ Hst), (length_groups _ _ Hst'), Hlen.
    apply le_n_S, length_filter_mono.
    intros i Hi%elem_of_seq Hsplit.
    destruct (Hagree i ltac:(lia)) as [(prev & curr & Hp & Hc & Hbad)|Heq].
    + exfalso. unfold new_group_at in Hsplit.
      rewrite (gap_at_lookup _ _ _ _ Hp Hc) in Hsplit.
      by rewrite (pair_gap_unparseable _ _ Hbad) in Hsplit.
    + by rewrite Heq.
Qed.

(** C9: when the timestamps of [chunks[i-1]] and [chunks[i]] both parse
    and the second is earlier than the first, the gap computed at [i] is
    negative, [phase2_segment] returns groups that concatenate to the
    input, and none of them starts at [i]. *)
Theorem out_of_order_timestamps_merge (chunks : list Path) (i : nat)
    (prev curr : Path) (prev_time curr_time : datetime) :
  (0 < i)%nat →
  chunks !! (i - 1)%nat = Some prev →
  chunks !! i = Some curr →
  chunk_time (stem prev) = Ok prev_time →
  chunk_time (stem curr) = Ok curr_time →
  datetime_ltb curr_time prev_time = true →
  ∃ gap groups,
    gap_at chunks i = Ok gap
    ∧ gap < 0
    ∧ phase2_segment chunks = Ok groups
    ∧ concat groups = chunks
    ∧ i ∉ group_starts groups.
Proof.
  intros Hi Hp Hc Htp Htc Hlt.
  assert (Hne : chunks ≠ []) by (by destruct chunks).
  destruct (phase2_segment_spec chunks Hne) as (groups & Hrun & Hcat & _ & Hst).
  pose proof (gap_negative_of_earlier _ _
                (chunk_time_valid _ _ Htp) (chunk_time_valid _ _ Htc) Hlt) as Hneg.
  eexists _, groups. split; [|split; [exact Hneg|split; [done|split; [done|]]]].
  - rewrite (gap_at_lookup _ _ _ _ Hp Hc). by apply pair_gap_parsed.
  - pose proof (lookup_lt_Some _ _ _ Hc) as Hlen.
    rewrite (group_start_iff _ _ _ Hst) by lia.
    unfold new_group_at.
    rewrite (gap_at_lookup _ _ _ _ Hp Hc), (pair_gap_parsed _ _ _ _ Htp Htc).
    intros ?%Z.ltb_lt. lia.
Qed.

(** ** Running computations *)

Lemma bind_ok {A B} (m : M A) (f : A → M B) w a w' :
  m w = Some (Ok a, w') → (m ≫= f) w = f a w'.
Proof. intros Hm. unfold mbind, M_bind. by rewrite Hm. Qed.

Lemma bind_raise {A B} (m : M A) (f : A → M B) w e w' :
  m w = Some (Raise e, w') → (m ≫= f) w = Some (Raise e, w').
Proof. intros Hm. unfold mbind, M_bind. by rewrite Hm. Qed.

Lemma bind_none {A B} (m : M A) (f : A → M B) w :
  m w = None → (m ≫= f) w = None.
Proof. intros Hm. unfold mbind, M_bind. by rewrite Hm. Qed.

(** ** Phase 3 *)

Lemma filelist_lines conv w :
  ∃ lines,
    mapM_M (λ chunk, a ← Sys.absolute chunk;
                     mret ("file '" +:+ path_str a +:+ "'" +:+ nl)) conv w
    = Some (Ok lines, w).
Proof.
  induction conv as [|chunk conv [lines IH]]; simpl; [by eexists|].
  assert (∃ a, Sys.absolute chunk w = Some (Ok a, w)) as [a Ha].
  { unfold Sys.absolute. destruct (dir chunk) as [|c d]; [by eexists|].
    destruct (Ascii.ascii_dec c "/") as [->|Hc]; [by eexists|].
    repeat case_match; by eexists. }
  eexists. erewrite bind_ok; [|erewrite bind_ok; [|exact Ha]; reflexivity].
  erewrite bind_ok; [|exact IH]. reflexivity.
Qed.

(** One conversation: a group of one chunk leaves the world as it is and
    yields the chunk; any other group runs the merge command once. *)
Lemma concat_one_spec output_dir i conv w :
  ∃ r w',
    concat_one output_dir i conv w = Some (r, w')
    ∧ ((length conv = 1%nat ∧ w' = w ∧ r = getitem conv 0)
       ∨ (length conv ≠ 1%nat
          ∧ procs w' = procs w ++ [merge_command output_dir i])).
Proof.
  unfold concat_one. destruct (length conv =? 1)%nat eqn:Hlen.
  - apply Nat.eqb_eq in Hlen. eexists _, w. split; [reflexivity|]. by left.
  - apply Nat.eqb_neq in Hlen.
    destruct (filelist_lines conv w) as [lines Hlines].
    erewrite bind_ok; [|exact Hlines].
    erewrite bind_ok; [|reflexivity].
    unfold mbind at 1, M_bind, Sys.subprocess_run. simpl.
    destruct (ffmpeg w _ _) as [fs|e]; simpl.
    + unfold mbind, M_bind, Sys.unlink. simpl.
      destruct (fs !! _); simpl; eexists _, _; (split; [reflexivity|]);
        right; by split.
    + eexists _, _. split; [reflexivity|]. right. by split.
Qed.

Lemma concat_loop_spec output_dir conversations k w :
  ∃ r w',
    mapM_M (λ '(i, conv), concat_one output_dir i conv)
           (enumerate_from k conversations) w = Some (r, w')
    ∧ (∃ js, procs w' = procs w ++ (merge_command output_dir <$> js)
             ∧ ∀ j, j ∈ js →
                 (k ≤ j)%nat
                 ∧ ∃ conv, conversations !! (j - k)%nat = Some conv
                           ∧ length conv ≠ 1%nat)
    ∧ (∀ outputs, r = Ok outputs →
         length outputs = length conversations
         ∧ ∀ i chunk, conversations !! i = Some [chunk] →
                      outputs !! i = Some chunk).
Proof.
  revert k w. induction conversations as [|conv convs IH]; intros k w; simpl.
  { eexists _, w. split; [reflexivity|]. split.
    - exists []. simpl. rewrite app_nil_r. split; [done|]. by intros j ?%elem_of_nil.
    - intros outputs [= <-]. split; [done|]. intros i chunk. by rewrite lookup_nil. }
  destruct (concat_one_spec output_dir k conv w) as (r1 & w1 & Hrun1 & Hcase).
  destruct r1 as [out1|e1].
  2:{ eexists _, _. split; [by erewrite bind_raise|]. split; [|done].
      destruct Hcase as [(Hlen & _ & Hr)|(Hlen & Hprocs)].
      - exfalso. by destruct conv as [|c [|]].
      - exists [k]. split; [done|]. intros j ->%list_elem_of_singleton.
        split; [lia|]. exists conv. by replace (k - k)%nat with 0%nat by lia. }
  destruct (IH (S k) w1) as (r2 & w2 & Hrun2 & (js & Hprocs2 & Hjs) & Hout).
  assert (Hstep : ∃ js1, procs w1 = procs w ++ (merge_command output_dir <$> js1)
            ∧ (∀ j, j ∈ js1 → j = k ∧ length conv ≠ 1%nat)
            ∧ (∀ chunk, conv = [chunk] → out1 = chunk)).
  { destruct Hcase as [(Hlen & -> & Hr)|(Hlen & Hprocs)].
    - exists []. simpl. rewrite app_nil_r. split; [done|].
      split; [by intros j ?%elem_of_nil|].
      intros chunk ->. by injection Hr.
    - exists [k]. split; [done|]. split.
      + by intros j ->%list_elem_of_singleton.
      + by intros chunk ->. }
  destruct Hstep as (js1 & Hprocs1 & Hjs1 & Hout1).
  assert (Hjs' : ∀ j, j ∈ js1 ++ js →
            (k ≤ j)%nat ∧ ∃ conv0, (conv :: convs) !! (j - k)%nat = Some conv0
                                   ∧ length conv0 ≠ 1%nat).
  { intros j [Hj|Hj]%elem_of_app.
    - destruct (Hjs1 j Hj) as [-> Hlen]. split; [lia|].
      exists conv. by replace (k - k)%nat with 0%nat by lia.
    - destruct (Hjs j Hj) as (Hle & conv0 & Hlk & Hlen). split; [lia|].
      exists conv0. split; [|done].
      by replace (j - k)%nat with (S (j - S k)) by lia. }
  erewrite bind_ok; [|exact Hrun1].
  destruct r2 as [outs|e2].
  - eexists _, w2. split; [by erewrite bind_ok|]. split.
    + exists (js1 ++ js). split; [|done].
      by rewrite Hprocs2, Hprocs1, fmap_app, app_assoc.
    + intros outputs [= <-].
      destruct (Hout outs eq_refl) as [Hlen Hsing].
      split; [simpl; by rewrite Hlen|].
      intros [|i] chunk; simpl; [|by apply Hsing].
      intros [= ->]. f_equal. by apply Hout1.
  - eexists _, w2. split; [by erewrite bind_raise|]. split; [|done].
    exists (js1 ++ js). split; [|done].
    by rewrite Hprocs2, Hprocs1, fmap_app, app_assoc.
Qed.

(** C5: a group of exactly one chunk goes through the merge stage with no
    effect at all, its artifact being the chunk; and in a run of
    [phase3_concat] every merge command is run for a group whose size is
    not 1, while the artifact returned for a one-chunk group is its
    chunk. *)
Theorem singleton_group_not_merged (conversations : list (list Path))
    (output_dir : Path) (w : world) :
  (∀ i chunk w0, concat_one output_dir i [chunk] w0 = Some (Ok chunk, w0))
  ∧ ∃ r w',
      phase3_concat conversations output_dir w = Some (r, w')
      ∧ (∃ js, procs w' = procs w ++ (merge_command output_dir <$> js)
               ∧ ∀ j, j ∈ js →
                   ∃ conv, conversations !! j = Some conv
                           ∧ length conv ≠ 1%nat)
      ∧ (∀ outputs, r = Ok outputs →
           length outputs = length conversations
           ∧ ∀ i chunk, conversations !! i = Some [chunk] →
                        outputs !! i = Some chunk).
Proof.
  split; [reflexivity|].
  destruct (concat_loop_spec output_dir conversations 0 w)
    as (r & w' & Hrun & (js & Hprocs & Hjs) & Hout).
  exists r, w'. split; [|split; [|done]].
  - unfold phase3_concat, concat_loop, enumerate. by erewrite bind_ok.
  - exists js. split; [done|]. intros j Hj.
    destruct (Hjs j Hj) as (_ & conv & Hlk & Hlen).
    exists conv. by replace (j - 0)%nat with j in Hlk by lia.
Qed.

(** ** The asynchronous provider *)

Section AssemblyAI.
Context `{PyRuntime}.

Lemma same_store_refl w : same_store w w.
Proof. by split. Qed.

Lemma same_store_trans w1 w2 w3 :
  same_store w1 w2 → same_store w2 w3 → same_store w1 w3.
Proof. intros [? ?] [? ?]. split; congruence. Qed.

Lemma http_json_next r w o rest :
  net w = o :: rest →
  ∃ w', Sys.http_json r w = Some (o, w') ∧ same_store w w' ∧ net w' = rest.
Proof.
  intros Hnet. unfold Sys.http_json. rewrite Hnet.
  eexists. split; [reflexivity|]. by repeat split.
Qed.

Lemma poll_loop_spec r pendings final out rest fuel w :
  net w = (Ok <$> pendings) ++ Ok final :: rest →
  Forall is_pending pendings →
  (length pendings < fuel)%nat →
  poll_end final out →
  ∃ w', poll_loop fuel r w = Some (Ok out, w')
        ∧ same_store w w' ∧ net w' = rest.
Proof.
  revert fuel w. induction pendings as [|res pendings IH];
    intros fuel w Hnet Hpend Hfuel Hend;
    (destruct fuel as [|fuel]; [simpl in Hfuel; lia|]); simpl in Hnet.
  - destruct (http_json_next r w _ _ Hnet) as (w1 & Hhttp & Hst & Hrest).
    exists w1. split; [|done]. simpl.
    erewrite bind_ok; [|exact Hhttp].
    destruct Hend as [[Hs ->]|(Hs & err & Herr & ->)];
      (erewrite bind_ok; [|unfold lift; by rewrite Hs]); simpl; [done|].
    erewrite bind_ok; [|unfold lift; by rewrite Herr]. done.
  - apply Forall_cons in Hpend as [(status & Hs & Hnc & Hne) Hpend].
    destruct (http_json_next r w _ _ Hnet) as (w1 & Hhttp & Hst & Hrest).
    set (w2 := mkWorld (environ w1) (cwd w1) (files w1) (net w1) (sent w1)
                       (procs w1) (slept w1 + 3) (ffmpeg w1)).
    destruct (IH fuel w2) as (w' & Hrun & Hst' & Hnet'); auto.
    { simpl in Hfuel. lia. }
    exists w'. split; [|split; [|done]].
    + simpl. erewrite bind_ok; [|exact Hhttp].
      erewrite bind_ok; [|unfold lift; by rewrite Hs].
      rewrite Hnc, Hne. erewrite bind_ok; [|reflexivity]. exact Hrun.
    + eapply same_store_trans; [exact Hst|].
      destruct Hst' as [? ?]. by split.
Qed.

Lemma poll_spec r pendings final out rest w :
  net w = (Ok <$> pendings) ++ Ok final :: rest →
  Forall is_pending pendings →
  poll_end final out →
  ∃ w', poll r w = Some (Ok out, w') ∧ same_store w w' ∧ net w' = rest.
Proof.
  intros Hnet Hpend Hend. unfold poll.
  eapply poll_loop_spec; eauto.
  rewrite Hnet, length_app, length_fmap. simpl. lia.
Qed.

(** A run of the provider up to the end of the polling loop, on a backend
    that answers the upload, the submission and the polls. *)
Lemma assemblyai_polled audio w api_key content upload resp pendings final
    out rest :
  environ w !! "ASSEMBLYAI_API_KEY" = Some api_key → api_key ≠ "" →
  files w !! path_str audio = Some content →
  (∃ upload_url, Py.subscript upload (KStr "upload_url") = Ok upload_url) →
  (∃ id, Py.subscript resp (KStr "id") = Ok id) →
  Forall is_pending pendings →
  poll_end final out →
  net w = Ok upload :: Ok resp :: (Ok <$> pendings) ++ Ok final :: rest →
  ∃ w', _diarize_assemblyai audio w
        = match out with
          | inr text => Some (Ok text, w')
          | inl res => Some (format_result res, w')
          end
        ∧ same_store w w' ∧ net w' = rest.
Proof.
  intros Hkey Hne Hfile [upload_url Hup] [id Hid] Hpend Hend Hnet.
  unfold _diarize_assemblyai.
  erewrite bind_ok; [|unfold Sys.environ_get; by rewrite Hkey].
  assert (Htruthy : truthy (Some api_key) = true) by (by destruct api_key).
  rewrite Htruthy. cbn [negb]. cbv zeta.
  erewrite bind_ok; [|unfold Sys.read_file; by rewrite Hfile].
  destruct (http_json_next
              (mkRequest "POST" "https://api.assemblyai.com/v2/upload"
                 [("authorization", default "" (Some api_key))] (FileBody content))
              w _ _ Hnet) as (w1 & Hhttp1 & Hst1 & Hnet1).
  erewrite bind_ok; [|exact Hhttp1].
  erewrite bind_ok; [|unfold lift; by rewrite Hup].
  destruct (http_json_next
              (mkRequest "POST" "https://api.assemblyai.com/v2/transcript"
                 [("authorization", default "" (Some api_key))]
                 (JsonBody (VDict [("audio_url", upload_url);
                                   ("speaker_labels", VBool true)])))
              w1 _ _ Hnet1) as (w2 & Hhttp2 & Hst2 & Hnet2).
  erewrite bind_ok; [|exact Hhttp2].
  erewrite bind_ok; [|unfold lift; by rewrite Hid].
  destruct (poll_spec
              (mkRequest "GET"
                 ("https://api.assemblyai.com/v2/transcript/" +:+ py_str id)
                 [("authorization", default "" (Some api_key))] NoBody)
              pendings final out rest w2 Hnet2 Hpend Hend)
    as (w3 & Hpoll & Hst3 & Hnet3).
  exists w3. split; [|split; [|done]].
  - erewrite bind_ok; [|exact Hpoll]. by destruct out.
  - eauto using same_store_trans.
Qed.

End AssemblyAI.

(** ** Formatting *)

Lemma round_half_even_1000_near n :
  Z.abs (1000 * round_half_even_1000 n - n) <= 500.
Proof.
  unfold round_half_even_1000.
  pose proof (Z.div_mod n 1000 ltac:(lia)).
  pose proof (Z.mod_pos_bound n 1000 ltac:(lia)).
  repeat case_match; lia.
Qed.

Lemma round_half_even_1000_nonneg n : 0 <= n → 0 <= round_half_even_1000 n.
Proof.
  intros Hn. unfold round_half_even_1000.
  pose proof (Z.div_pos n 1000 Hn ltac:(lia)).
  repeat case_match; lia.
Qed.

(** *** The float quotient and the exact one round alike below 2^52 *)

Lemma round_half_even_1000_eq n :
  round_half_even_1000 n = round_half_even n 1000.
Proof.
  unfold round_half_even_1000, round_half_even. cbv zeta.
  destruct (Z.ltb_spec (n mod 1000) 500), (Z.ltb_spec (2 * (n mod 1000)) 1000);
    try lia; try done.
  destruct (Z.ltb_spec 500 (n mod 1000)), (Z.ltb_spec 1000 (2 * (n mod 1000)));
    try lia; done.
Qed.

Lemma round_half_even_near num den :
  0 < den →
  - den <= 2 * (den * round_half_even num den - num) <= den.
Proof.
  intros Hden. unfold round_half_even. cbv zeta.
  pose proof (Z.div_mod num den ltac:(lia)) as Hdm.
  pose proof (Z.mod_pos_bound num den Hden) as Hmod.
  set (q := num / den) in *. set (r := num mod den) in *.
  assert (Hq1 : den * (q + 1) = den * q + den) by lia.
  destruct (Z.ltb_spec (2 * r) den); [lia|].
  destruct (Z.ltb_spec den (2 * r)); [lia|].
  destruct (Z.even q); lia.
Qed.

Lemma round_half_even_unique num den v :
  0 < den → - den < 2 * (num - den * v) < den → round_half_even num den = v.
Proof.
  intros Hden Hv.
  pose proof (round_half_even_near num den Hden) as Hu.
  set (u := round_half_even num den) in *.
  assert (Hd : - den < den * (u - v) < den) by lia.
  assert (u - v = 0); [|lia].
  destruct (Z.lt_trichotomy (u - v) 0) as [Hlt|[Heq|Hgt]]; [|done|]; nia.
Qed.

Lemma round_half_even_exact den c :
  0 < den → round_half_even (den * c) den = c.
Proof. intros Hden. apply round_half_even_unique; lia. Qed.

Lemma round_half_even_tie h q :
  0 < h →
  round_half_even (2 * h * q + h) (2 * h) = if Z.even q then q else q + 1.
Proof.
  intros Hh. unfold round_half_even. cbv zeta.
  assert (Hq : (2 * h * q + h) / (2 * h) = q).
  { symmetry. apply (Z.div_unique _ _ q h); lia. }
  assert (Hr : (2 * h * q + h) mod (2 * h) = h).
  { symmetry. apply (Z.mod_unique _ _ q h); lia. }
  rewrite Hq, Hr.
  destruct (Z.ltb_spec (2 * h) (2 * h)); [lia|]. done.
Qed.

Lemma round_half_even_nonneg num den :
  0 <= num → 0 < den → 0 <= round_half_even num den.
Proof.
  intros Hnum Hden. unfold round_half_even. cbv zeta.
  pose proof (Z.div_pos num den Hnum Hden).
  repeat case_match; lia.
Qed.

(** Rounding [a / 1000] to a multiple of [1 / P] first, for an even
    [P] above 500, does not change the nearest integer. *)
Lemma round_twice a P h :
  0 <= a → P = 2 * h → 500 < P →
  round_half_even (round_half_even (a * P) 1000) P = round_half_even a 1000.
Proof.
  intros Ha HP Hbig.
  pose proof (round_half_even_near (a * P) 1000 ltac:(lia)) as Hm.
  set (m := round_half_even (a * P) 1000) in *.
  pose proof (Z.div_mod a 1000 ltac:(lia)) as Hdm.
  pose proof (Z.mod_pos_bound a 1000 ltac:(lia)) as Hmod.
  unfold round_half_even at 2. cbv zeta.
  set (q := a / 1000) in *. set (r := a mod 1000) in *.
  assert (HaP : a * P = 1000 * (P * q) + r * P) by (rewrite Hdm; ring).
  destruct (Z.ltb_spec (2 * r) 1000) as [Hlo|Hge].
  { apply round_half_even_unique; [lia|].
    assert (0 <= r * P <= 499 * P) by nia. lia. }
  destruct (Z.ltb_spec 1000 (2 * r)) as [Hhi|Hle].
  { apply round_half_even_unique; [lia|].
    assert (HPq : P * (q + 1) = P * q + P) by ring.
    assert (501 * P <= r * P <= 999 * P) by nia. lia. }
  assert (Hr : r = 500) by lia.
  assert (Hexact : m = 2 * h * q + h).
  { subst m. replace (a * P) with (1000 * (2 * h * q + h)).
    - apply round_half_even_exact. lia.
    - rewrite HaP, Hr, HP. ring. }
  rewrite Hexact, HP. apply round_half_even_tie. lia.
Qed.

Lemma nearest_float_small a :
  0 < a < 2 ^ 52 →
  ∃ k, 10 <= k
       ∧ nearest_float_1000 a
         = mkFloat (round_half_even (a * 2 ^ k) 1000) (- k).
Proof.
  intros Ha. unfold nearest_float_1000.
  assert (Hlog : 0 <= Z.log2 a < 52).
  { split; [apply Z.log2_nonneg|]. apply Z.log2_lt_pow2; lia. }
  change (Z.log2 1000) with 9.
  set (e0 := Z.log2 a - 9 - 52) in *. cbv zeta.
  set (e := if fst (scaled a e0) <? snd (scaled a e0) * 2 ^ 52
            then e0 - 1 else e0).
  assert (He : e <= -10) by (subst e; case_match; lia).
  exists (- e). split; [lia|].
  unfold scaled. destruct (Z.ltb_spec e 0); [|lia].
  simpl. by rewrite Z.opp_involutive.
Qed.

(** For an offset from 0 to 2^52 milliseconds the division returns, and
    the float it returns prints as the whole number of seconds nearest to
    the offset. *)
Lemma format_0f_truediv n :
  0 <= n < 2 ^ 52 →
  ∃ x, int_truediv_1000 n = Ok x
       ∧ format_0f x = pretty (round_half_even_1000 n).
Proof.
  intros Hn. destruct (Z.eq_dec n 0) as [->|Hn0].
  { by exists (mkFloat 0 0). }
  destruct (nearest_float_small n ltac:(lia)) as (k & Hk & Hnear).
  unfold int_truediv_1000.
  destruct (Z.eqb_spec n 0); [done|].
  rewrite Z.abs_eq, Hnear by lia. cbn [mant expo].
  destruct (Z.leb_spec 0 (- k)); [lia|]. cbn [andb].
  eexists. split; [reflexivity|].
  assert (Hpow : 2 ^ k = 2 * 2 ^ (k - 1)).
  { rewrite <- Z.pow_succ_r by lia. f_equal. lia. }
  assert (Hbig : 2 ^ 10 <= 2 ^ k) by (apply Z.pow_le_mono_r; lia).
  change (2 ^ 10) with 1024 in Hbig.
  pose proof (round_half_even_nonneg (n * 2 ^ k) 1000 ltac:(nia) ltac:(lia)).
  rewrite Z.sgn_pos, Z.mul_1_l by lia.
  unfold format_0f. cbn [mant expo]. rewrite Z.opp_involutive.
  destruct (Z.ltb_spec (- k) 0); [|lia].
  destruct (Z.ltb_spec (round_half_even (n * 2 ^ k) 1000) 0); [lia|].
  rewrite Z.abs_eq by lia.
  rewrite (round_twice n (2 ^ k) (2 ^ (k - 1))) by lia.
  by rewrite round_half_even_1000_eq.
Qed.

Lemma join_values_strings sep (items : list string) :
  join_values sep (VStr <$> items) = Ok (str_join sep items).
Proof.
  unfold join_values.
  assert (Hmap : mapM (M := result) join_item (VStr <$> items) = Ok items).
  { induction items as [|s items IH]; [done|].
    change (mapM (M := result) join_item (VStr <$> s :: items))
      with (y ← join_item (VStr s);
            k ← mapM (M := result) join_item (VStr <$> items);
            mret (M := result) (y :: k)).
    by rewrite IH. }
  by rewrite Hmap.
Qed.

Section Formatting.
Context `{PyRuntime}.

Lemma format_utterance_line v u :
  is_utterance v u → format_utterance v = Ok (utterance_line u).
Proof.
  intros (Hs & Ht & Hm & Hrange). unfold format_utterance.
  rewrite Hs, Ht, Hm.
  destruct (format_0f_truediv (start_ms u) Hrange) as (x & Hx & Hfmt).
  cbn [mbind result_bind truediv_1000]. rewrite Hx. cbn [mbind result_bind].
  by rewrite Hfmt.
Qed.

Lemma format_utterances_lines items us :
  Forall2 is_utterance items us →
  mapM (M := result) format_utterance items = Ok (utterance_line <$> us).
Proof.
  induction 1 as [|v u items us Hu _ IH]; [done|].
  change (mapM (M := result) format_utterance (v :: items))
    with (y ← format_utterance v;
          k ← mapM (M := result) format_utterance items;
          mret (M := result) (y :: k)).
  by rewrite (format_utterance_line _ _ Hu), IH.
Qed.

End Formatting.

(** C6: when the backend completes a job with a non-empty list of
    utterances, the asynchronous provider returns their lines
    [**Speaker <label>** (<offset>s): <text>] in the backend's order,
    joined by a blank line, each offset being the whole number of
    seconds nearest to the start offset in milliseconds. *)
Theorem assemblyai_renders_utterances `{PyRuntime} (audio : Path) (w : world)
    (api_key content : string) (upload resp : value) (pendings : list value)
    (final : value) (items : list value) (us : list utterance)
    (rest : list (result value)) :
  environ w !! "ASSEMBLYAI_API_KEY" = Some api_key → api_key ≠ "" →
  files w !! path_str audio = Some content →
  (∃ upload_url, Py.subscript upload (KStr "upload_url") = Ok upload_url) →
  (∃ id, Py.subscript resp (KStr "id") = Ok id) →
  Forall is_pending pendings →
  has_status final "completed" →
  Py.get final "utterances" (VList []) = Ok (VList items) →
  items ≠ [] →
  Forall2 is_utterance items us →
  net w = Ok upload :: Ok resp :: (Ok <$> pendings) ++ Ok final :: rest →
  (∃ w', _diarize_assemblyai audio w
         = Some (Ok (VStr (str_join (nl +:+ nl) (utterance_line <$> us))), w')
         ∧ net w' = rest)
  ∧ Forall (λ u, Z.abs (1000 * offset_seconds u - start_ms u) <= 500) us.
Proof.
  intros Hkey Hne Hfile Hup Hid Hpend Hdone Hget Hitems Hus Hnet.
  split.
  - destruct (assemblyai_polled audio w api_key content upload resp pendings
                final (inl final) rest) as (w' & Hrun & _ & Hrest); auto.
    { left. by split. }
    exists w'. split; [|done]. rewrite Hrun. do 2 f_equal.
    unfold format_result. rewrite Hget. simpl.
    rewrite (format_utterances_lines _ _ Hus). simpl.
    destruct Hus as [|v u items us]; [done|]. reflexivity.
  - apply Forall_forall. intros u _. apply round_half_even_1000_near.
Qed.

(** C7, amended: when the backend completes a job whose [utterances] are
    absent or an empty list, the asynchronous provider returns the
    literal [No text] if the result has no key [text], and the [text] of
    the result verbatim if it is a string, the empty string included. *)
Theorem assemblyai_no_utterances `{PyRuntime} (audio : Path) (w : world)
    (api_key content : string) (upload resp : value) (pendings : list value)
    (final : value) (rest : list (result value)) :
  environ w !! "ASSEMBLYAI_API_KEY" = Some api_key → api_key ≠ "" →
  files w !! path_str audio = Some content →
  (∃ upload_url, Py.subscript upload (KStr "upload_url") = Ok upload_url) →
  (∃ id, Py.subscript resp (KStr "id") = Ok id) →
  Forall is_pending pendings →
  has_status final "completed" →
  Py.get final "utterances" (VList []) = Ok (VList []) →
  net w = Ok upload :: Ok resp :: (Ok <$> pendings) ++ Ok final :: rest →
  ∃ w' kvs,
    final = VDict kvs
    ∧ net w' = rest
    ∧ (Py.dict_get kvs "text" = None →
       _diarize_assemblyai audio w = Some (Ok (VStr "No text"), w'))
    ∧ (∀ t : string, Py.dict_get kvs "text" = Some (VStr t) →
       _diarize_assemblyai audio w = Some (Ok (VStr t), w')).
Proof.
  intros Hkey Hne Hfile Hup Hid Hpend Hdone Hget Hnet.
  destruct (assemblyai_polled audio w api_key content upload resp pendings
              final (inl final) rest) as (w' & Hrun & _ & Hrest); auto.
  { left. by split. }
  destruct final as [| | | | |kvs]; try done.
  exists w', kvs. split; [done|]. split; [done|].
  rewrite Hrun. unfold format_result. rewrite Hget. simpl.
  split; [intros -> | intros t ->]; reflexivity.
Qed.

(** ** The orchestrator *)

Section Orchestrator.
Context `{PyRuntime}.

(** When every provider call returns a text, the transcript is written:
    the texts in order, joined by the separator. *)
Lemma phase4_returns provider audio_files transcript_path w blocks w1 :
  mapM_M (diarize_one provider) audio_files w = Some (Ok (VStr <$> blocks), w1) →
  phase4_diarize audio_files transcript_path provider w
  = Some (Ok transcript_path,
          Sys.set_files (<[path_str transcript_path
                           := str_join separator blocks]> (files w1)) w1).
Proof.
  intros Hrun. unfold phase4_diarize.
  erewrite bind_ok; [|reflexivity].
  erewrite bind_ok; [|exact Hrun].
  erewrite bind_ok; [|unfold lift; by rewrite join_values_strings].
  by erewrite bind_ok.
Qed.

Lemma diarize_all_same_text provider audio_files text w :
  (∀ audio, diarize_one provider audio w = Some (Ok (VStr text), w)) →
  mapM_M (diarize_one provider) audio_files w
  = Some (Ok (VStr <$> replicate (length audio_files) text), w).
Proof.
  intros Hone. induction audio_files as [|audio audios IH]; [done|].
  simpl. erewrite bind_ok; [|apply Hone].
  by erewrite bind_ok; [|exact IH].
Qed.

Lemma assemblyai_no_key audio w :
  environ w !! "ASSEMBLYAI_API_KEY" = None →
  _diarize_assemblyai audio w
  = Some (Ok (VStr "Error: ASSEMBLYAI_API_KEY not set"), w).
Proof.
  intros Hkey. unfold _diarize_assemblyai.
  erewrite bind_ok; [|unfold Sys.environ_get; by rewrite Hkey]. done.
Qed.

Lemma gemini_no_key audio w :
  environ w !! "GEMINI_API_KEY" = None →
  _diarize_gemini audio w = Some (Ok (VStr "Error: GEMINI_API_KEY not set"), w).
Proof.
  intros Hkey. unfold _diarize_gemini.
  erewrite bind_ok; [|unfold Sys.environ_get; by rewrite Hkey]. done.
Qed.

Lemma assemblyai_job audio j block api_key rest w :
  environ w !! "ASSEMBLYAI_API_KEY" = Some api_key → api_key ≠ "" →
  is_Some (files w !! path_str audio) →
  job_block j block →
  net w = job_script j ++ rest →
  ∃ w', _diarize_assemblyai audio w = Some (Ok (VStr block), w')
        ∧ same_store w w' ∧ net w' = rest.
Proof.
  intros Hkey Hne [content Hfile] (Hup & Hid & Hpend & Hfinal) Hnet.
  assert (∃ out, poll_end (job_final j) out
                 ∧ match out with
                   | inr text => Ok text
                   | inl res => format_result res
                   end = Ok (VStr block)) as (out & Hend & Hout).
  { destruct Hfinal as [[Hs Hfmt]|(Hs & err & Herr & ->)].
    - exists (inl (job_final j)). split; [by left|done].
    - eexists (inr _). split; [right; eauto|done]. }
  destruct (assemblyai_polled audio w api_key content (job_upload j)
              (job_submit j) (job_pending j) (job_final j) out rest)
    as (w1 & Hrun1 & Hst1 & Hnet1); auto.
  { rewrite Hnet. unfold job_script. simpl. by rewrite <- !app_assoc. }
  exists w1. split; [|done]. rewrite Hrun1.
  destruct out; by rewrite <- Hout.
Qed.

Lemma gemini_response audio res api_key rest w :
  environ w !! "GEMINI_API_KEY" = Some api_key → api_key ≠ "" →
  is_Some (files w !! path_str audio) →
  net w = Ok res :: rest →
  ∃ w', same_store w w' ∧ net w' = rest
        ∧ _diarize_gemini audio w
          = match gemini_text res with
            | Ok text => Some (Ok text, w')
            | Raise KeyError | Raise IndexError =>
                Some (Ok (VStr ("Error: "
                                +:+ String.substring 0 200 (json_dumps res))), w')
            | Raise e => Some (Raise e, w')
            end.
Proof.
  intros Hkey Hne [content Hfile] Hnet. unfold _diarize_gemini.
  erewrite bind_ok; [|unfold Sys.environ_get; by rewrite Hkey].
  assert (Htruthy : truthy (Some api_key) = true) by (by destruct api_key).
  rewrite Htruthy. cbn [negb]. cbv zeta.
  erewrite bind_ok; [|unfold Sys.read_file; by rewrite Hfile].
  edestruct (http_json_next) as (w1 & Hhttp & Hst & Hnet1); [exact Hnet|].
  exists w1. split; [done|]. split; [done|].
  erewrite bind_ok; [|exact Hhttp].
  destruct (gemini_text res) as [text|[]]; reflexivity.
Qed.

(** One conversation whose exchange with the backend ends in a text. *)
Lemma diarize_one_exchange provider audio script block api_key rest w :
  exchange provider script block →
  environ w !! credential provider = Some api_key → api_key ≠ "" →
  is_Some (files w !! path_str audio) →
  net w = script ++ rest →
  ∃ w', diarize_one provider audio w = Some (Ok (VStr block), w')
        ∧ same_store w w' ∧ net w' = rest.
Proof.
  intros Hex Hkey Hne Hfile Hnet.
  destruct Hex as [j block Hj|res block Htext|res Hmiss].
  - change (diarize_one "assemblyai" audio) with (_diarize_assemblyai audio).
    by eapply assemblyai_job.
  - change (diarize_one "gemini" audio) with (_diarize_gemini audio).
    destruct (gemini_response audio res api_key rest w)
      as (w' & Hst & Hnet' & Hrun); auto.
    exists w'. rewrite Hrun, Htext. done.
  - change (diarize_one "gemini" audio) with (_diarize_gemini audio).
    destruct (gemini_response audio res api_key rest w)
      as (w' & Hst & Hnet' & Hrun); auto.
    exists w'. rewrite Hrun. by destruct Hmiss as [-> | ->].
Qed.

(** The conversations one after the other. *)
Lemma diarize_all_exchanges provider audio_files scripts blocks api_key rest w :
  environ w !! credential provider = Some api_key → api_key ≠ "" →
  Forall (λ audio, is_Some (files w !! path_str audio)) audio_files →
  length scripts = length audio_files →
  Forall2 (exchange provider) scripts blocks →
  net w = concat scripts ++ rest →
  ∃ w', mapM_M (diarize_one provider) audio_files w
        = Some (Ok (VStr <$> blocks), w')
        ∧ same_store w w' ∧ net w' = rest.
Proof.
  intros Hkey Hne Hfiles Hlen Hex. revert audio_files w Hkey Hfiles Hlen.
  induction Hex as [|script block scripts blocks Hone _ IH];
    intros audio_files w Hkey Hfiles Hlen Hnet.
  { destruct audio_files; [|done]. exists w. simpl in *.
    repeat split; done. }
  destruct audio_files as [|audio audios]; [done|].
  apply Forall_cons in Hfiles as [Hfile Hfiles].
  destruct (diarize_one_exchange provider audio script block api_key
              (concat scripts ++ rest) w)
    as (w1 & Hrun1 & [Henv1 Hfs1] & Hnet1); auto.
  { rewrite Hnet. simpl. by rewrite <- app_assoc. }
  destruct (IH audios w1) as (w' & Hrun & Hst & Hnet'); auto.
  { by rewrite Henv1. }
  { eapply Forall_impl; [exact Hfiles|]. intros a. by rewrite Hfs1. }
  exists w'. split; [|split; [|done]].
  - simpl. erewrite bind_ok; [|exact Hrun1].
    by erewrite bind_ok; [|exact Hrun].
  - eapply same_store_trans; [|exact Hst]. by split.
Qed.

End Orchestrator.

(** C8: with the credential of the selected provider absent from the
    environment, the provider returns the inline text
    [Error: <VARIABLE> not set] and leaves the world as it is, so that no
    request is issued; a run of [phase4_diarize] then returns and writes a
    transcript made of that text for every conversation. *)
Theorem missing_credential_inline_error `{PyRuntime} (audio : Path)
    (audio_files : list Path) (transcript_path : Path) (w : world) :
  (environ w !! "ASSEMBLYAI_API_KEY" = None →
   _diarize_assemblyai audio w
   = Some (Ok (VStr "Error: ASSEMBLYAI_API_KEY not set"), w)
   ∧ ∃ w', phase4_diarize audio_files transcript_path "assemblyai" w
           = Some (Ok transcript_path, w')
           ∧ sent w' = sent w ∧ net w' = net w
           ∧ files w' !! path_str transcript_path
             = Some (str_join separator
                       (replicate (length audio_files)
                                  "Error: ASSEMBLYAI_API_KEY not set")))
  ∧ (environ w !! "GEMINI_API_KEY" = None →
     _diarize_gemini audio w
     = Some (Ok (VStr "Error: GEMINI_API_KEY not set"), w)
     ∧ ∃ w', phase4_diarize audio_files transcript_path "gemini" w
             = Some (Ok transcript_path, w')
             ∧ sent w' = sent w ∧ net w' = net w
             ∧ files w' !! path_str transcript_path
               = Some (str_join separator
                         (replicate (length audio_files)
                                    "Error: GEMINI_API_KEY not set"))).
Proof.
  split; intros Hkey.
  - split; [by apply assemblyai_no_key|].
    eexists. split; [|split; [|split]].
    + apply phase4_returns, diarize_all_same_text.
      intros a. by apply assemblyai_no_key.
    + done.
    + done.
    + simpl. apply lookup_insert_eq.
  - split; [by apply gemini_no_key|].
    eexists. split; [|split; [|split]].
    + apply phase4_returns, diarize_all_same_text.
      intros a. by apply gemini_no_key.
    + done.
    + done.
    + simpl. apply lookup_insert_eq.
Qed.

(** C2, amended: a failure that a provider reports in the text it
    returns (the asynchronous backend ends the job with the status
    [error]; the response of the synchronous backend lacks a key or an
    index on the way to its text) is the inline block [Error: <message>]
    of its conversation; whichever conversations fail so,
    [phase4_diarize] goes on with the conversations that follow, returns,
    and writes a transcript of one block per conversation, in order,
    joined by the separator. *)
Theorem reported_failure_is_isolated `{PyRuntime} (provider : string)
    (audio_files : list Path) (scripts : list (list (result value)))
    (blocks : list string) (transcript_path : Path) (api_key : string)
    (rest : list (result value)) (w : world) :
  environ w !! credential provider = Some api_key → api_key ≠ "" →
  Forall (λ audio, is_Some (files w !! path_str audio)) audio_files →
  length scripts = length audio_files →
  Forall2 (exchange provider) scripts blocks →
  net w = concat scripts ++ rest →
  ∃ w', phase4_diarize audio_files transcript_path provider w
        = Some (Ok transcript_path, w')
        ∧ files w' = <[path_str transcript_path
                       := str_join separator blocks]> (files w)
        ∧ net w' = rest
        ∧ length blocks = length audio_files.
Proof.
  intros Hkey Hne Hfiles Hlen Hex Hnet.
  destruct (diarize_all_exchanges provider audio_files scripts blocks
              api_key rest w) as (w1 & Hrun & [_ Hfs] & Hrest); auto.
  eexists. split; [by apply phase4_returns|].
  simpl. rewrite Hfs. repeat split; [done|].
  by rewrite <- (Forall2_length _ _ _ Hex).
Qed.

(** ** The claims at concrete inputs *)

Example strptime_stamp :
  Datetime.strptime "2026-02-28_10-04-00" = Ok (mkDatetime 2026 2 28 10 4 0).
Proof. reflexivity. Qed.

Example strptime_short_fields :
  Datetime.strptime "2026-2-8_1-0-7" = Ok (mkDatetime 2026 2 8 1 0 7).
Proof. reflexivity. Qed.

Example strptime_no_such_day :
  Datetime.strptime "2026-02-30_10-00-00" = Raise ValueError.
Proof. reflexivity. Qed.

Example strptime_unconverted_data :
  Datetime.strptime "2026-02-28_10-04-075" = Raise ValueError.
Proof. reflexivity. Qed.

Example chunk_time_without_marker :
  chunk_time "recording_2026-02-28_10-04-00" = Raise IndexError.
Proof. reflexivity. Qed.

Example gap_of_example : gap_at example_chunks 2 = Ok 960.
Proof. reflexivity. Qed.

Example gap_of_damaged : gap_at damaged_chunks 2 = Ok 300.
Proof. reflexivity. Qed.

Example gap_of_swapped : gap_at swapped_chunks 1 = Ok (-960).
Proof. reflexivity. Qed.

Example format_0f_ties :
  format_0f <$> [mkFloat 1 (-1); mkFloat 3 (-1); mkFloat 5 (-1);
                 mkFloat (-1) (-2); mkFloat (-3) (-1)]
  = ["0"; "2"; "2"; "-0"; "-2"].
Proof. reflexivity. Qed.

Example truediv_1000_float :
  truediv_1000 (VInt 1500) = Ok (mkFloat 6755399441055744 (-52))
  ∧ truediv_1000 (VInt 61499) = Ok (mkFloat 8655214796364317 (-47))
  ∧ truediv_1000 (VBool true) = Ok (mkFloat 4611686018427388 (-62)).
Proof. repeat split; reflexivity. Qed.

(** Beyond 2^53 seconds the quotient is rounded to a float before it is
    printed, and beyond the largest float the division raises. *)
Example truediv_1000_rounds :
  format_0f <$> [mkFloat (2 ^ 52) 1] = ["9007199254740992"]
  ∧ truediv_1000 (VInt ((2 ^ 53 + 1) * 1000)) = Ok (mkFloat (2 ^ 52) 1).
Proof. split; vm_compute; reflexivity. Qed.

Example truediv_1000_overflow :
  truediv_1000 (VInt (10 ^ 400)) = Raise OverflowError.
Proof. vm_compute. reflexivity. Qed.

Example format_utterance_far_offsets :
  @format_utterance example_runtime
    (example_utterance "A" ((2 ^ 53 + 1) * 1000) "Hello there.")
  = Ok "**Speaker A** (9007199254740992s): Hello there."
  ∧ @format_utterance example_runtime
      (example_utterance "A" (10 ^ 400) "Hello there.")
    = Raise OverflowError
  ∧ @format_utterance example_runtime
      (example_utterance "A" (-400) "Hello there.")
    = Ok "**Speaker A** (-0s): Hello there.".
Proof. repeat split; vm_compute; reflexivity. Qed.

(** The example of the specification: chunks at 10:00:00, 10:04:00 and
    10:20:00 give the groups [10:00, 10:04] and [10:20]. *)
Example segment_example :
  phase2_segment example_chunks
  = Ok [[chunk_at "2026-02-28_10-00-00"; chunk_at "2026-02-28_10-04-00"];
        [chunk_at "2026-02-28_10-20-00"]].
Proof. reflexivity. Qed.

Lemma segment_partitions_input_witness :
  example_chunks ≠ []
  ∧ ∃ groups,
      phase2_segment example_chunks = Ok groups
      ∧ Forall (λ g, g ≠ []) groups
      ∧ concat groups = example_chunks.
Proof.
  split; [discriminate|].
  apply (segment_partitions_input example_chunks). discriminate.
Defined.

Lemma segment_splits_iff_gap_exceeds_witness :
  far_chunks ≠ []
  ∧ ∃ groups,
      phase2_segment far_chunks = Ok groups
      ∧ concat groups = far_chunks
      ∧ (∀ i, (0 < i < length far_chunks)%nat →
           ∃ gap, gap_at far_chunks i = Ok gap
                  ∧ (i ∈ group_starts groups ↔ 600 < gap))
      ∧ ((∀ i gap, (0 < i < length far_chunks)%nat →
            gap_at far_chunks i = Ok gap → gap <= 600) →
         length groups = 1%nat)
      ∧ ((∀ i gap, (0 < i < length far_chunks)%nat →
            gap_at far_chunks i = Ok gap → 600 < gap) →
         length groups = length far_chunks
         ∧ Forall (λ g, length g = 1%nat) groups).
Proof.
  split; [discriminate|].
  apply (segment_splits_iff_gap_exceeds far_chunks). discriminate.
Defined.

Lemma unparseable_timestamps_merge_witness :
  unparseable_at damaged_chunks 2
  ∧ ∃ groups,
      phase2_segment damaged_chunks = Ok groups
      ∧ gap_at damaged_chunks 2 = Ok 300
      ∧ 2%nat ∉ group_starts groups.
Proof.
  assert (Hbad : unparseable_at damaged_chunks 2).
  { exists (chunk_at "2026-02-28_10-04-00"), (chunk_at "2026-02-28_10-2x-00").
    split; [reflexivity|]. split; [reflexivity|].
    right. exists ValueError. reflexivity. }
  split; [exact Hbad|].
  destruct (unparseable_timestamps_merge damaged_chunks)
    as (groups & Hrun & _ & Hpair & _).
  exists groups. split; [exact Hrun|].
  apply (Hpair 2%nat); [lia | exact Hbad].
Defined.

Lemma out_of_order_timestamps_merge_witness :
  datetime_ltb (mkDatetime 2026 2 28 10 4 0) (mkDatetime 2026 2 28 10 20 0) = true
  ∧ ∃ gap groups,
      gap_at swapped_chunks 1 = Ok gap
      ∧ gap < 0
      ∧ phase2_segment swapped_chunks = Ok groups
      ∧ concat groups = swapped_chunks
      ∧ 1%nat ∉ group_starts groups.
Proof.
  split; [reflexivity|].
  apply (out_of_order_timestamps_merge swapped_chunks 1
           (chunk_at "2026-02-28_10-20-00") (chunk_at "2026-02-28_10-04-00")
           (mkDatetime 2026 2 28 10 20 0) (mkDatetime 2026 2 28 10 4 0));
    [lia | reflexivity ..].
Defined.

Lemma singleton_group_not_merged_witness :
  ∃ r w',
    phase3_concat [[chunk_at "2026-02-28_10-00-00"; chunk_at "2026-02-28_10-04-00"];
                   [chunk_at "2026-02-28_10-20-00"]]
                  (mkPath "/rec/2026-02-28/" "concat" "")
                  (example_world None []) = Some (r, w')
    ∧ (∃ js, procs w' = merge_command (mkPath "/rec/2026-02-28/" "concat" "") <$> js
             ∧ 1%nat ∉ js)
    ∧ (∀ outputs, r = Ok outputs →
         outputs !! 1%nat = Some (chunk_at "2026-02-28_10-20-00")).
Proof.
  destruct (singleton_group_not_merged
              [[chunk_at "2026-02-28_10-00-00"; chunk_at "2026-02-28_10-04-00"];
               [chunk_at "2026-02-28_10-20-00"]]
              (mkPath "/rec/2026-02-28/" "concat" "")
              (example_world None []))
    as (_ & r & w' & Hrun & (js & Hprocs & Hjs) & Hout).
  exists r, w'. split; [exact Hrun|]. split.
  - exists js. split; [exact Hprocs|].
    intros Hin. destruct (Hjs _ Hin) as (conv & Hlk & Hlen).
    injection Hlk as <-. by apply Hlen.
  - intros outputs Hr. by apply (Hout outputs Hr).
Defined.

Lemma is_pending_example :
  Forall is_pending (job_pending (example_job example_completed)).
Proof.
  repeat constructor; eexists; (split; [reflexivity|]); by split.
Defined.

Lemma assemblyai_renders_utterances_witness :
  ∃ w', @_diarize_assemblyai example_runtime (example_audio 1)
          (example_world (Some "secret")
             (job_script (example_job example_completed)))
        = Some (Ok (VStr example_block), w')
        ∧ net w' = [].
Proof.
  apply (@assemblyai_renders_utterances example_runtime (example_audio 1)
           (example_world (Some "secret")
              (job_script (example_job example_completed)))
           "secret" "RIFF1"
           (job_upload (example_job example_completed))
           (job_submit (example_job example_completed))
           (job_pending (example_job example_completed))
           example_completed
           [example_utterance "A" 1500 "Hello there.";
            example_utterance "B" 2500 "Hi."]
           example_utterances []).
  - reflexivity.
  - discriminate.
  - reflexivity.
  - eexists. reflexivity.
  - eexists. reflexivity.
  - exact is_pending_example.
  - reflexivity.
  - reflexivity.
  - discriminate.
  - repeat constructor; simpl; lia.
  - reflexivity.
Defined.

Lemma assemblyai_no_utterances_witness :
  ∃ w', @_diarize_assemblyai example_runtime (example_audio 1)
          (example_world (Some "secret")
             (job_script (example_job example_silent)))
        = Some (Ok (VStr "No text"), w').
Proof.
  destruct (@assemblyai_no_utterances example_runtime (example_audio 1)
              (example_world (Some "secret")
                 (job_script (example_job example_silent)))
              "secret" "RIFF1"
              (job_upload (example_job example_silent))
              (job_submit (example_job example_silent))
              (job_pending (example_job example_silent))
              example_silent [])
    as (w' & kvs & Hkvs & _ & Hnone & _).
  - reflexivity.
  - discriminate.
  - reflexivity.
  - eexists. reflexivity.
  - eexists. reflexivity.
  - exact is_pending_example.
  - reflexivity.
  - reflexivity.
  - reflexivity.
  - exists w'. apply Hnone. injection Hkvs as <-. reflexivity.
Defined.

Lemma missing_credential_inline_error_witness :
  @_diarize_assemblyai example_runtime (example_audio 1) (example_world None [])
  = Some (Ok (VStr "Error: ASSEMBLYAI_API_KEY not set"), example_world None [])
  ∧ @_diarize_gemini example_runtime (example_audio 1) (example_world None [])
    = Some (Ok (VStr "Error: GEMINI_API_KEY not set"), example_world None []).
Proof.
  destruct (@missing_credential_inline_error example_runtime (example_audio 1)
              example_audios example_transcript (example_world None []))
    as [Ha Hg].
  split; [apply Ha | apply Hg]; reflexivity.
Defined.

Lemma exchange_examples :
  Forall2 (@exchange example_runtime "assemblyai") (job_script <$> example_jobs)
          [example_block; "Error: Audio too short"; "No text"].
Proof.
  unfold example_jobs.
  constructor; [|constructor; [|constructor; [|constructor]]];
    apply (@exchange_job example_runtime);
    (split; [eexists; reflexivity|]); (split; [eexists; reflexivity|]);
    (split; [exact is_pending_example|]).
  - left. by split.
  - right. split; [reflexivity|]. eexists. by split.
  - left. by split.
Defined.

(** A failure the backend reports on conversation 2 of 3: the transcript
    has three blocks, the second is the inline error. *)
Lemma reported_failure_is_isolated_witness :
  ∃ w', @phase4_diarize example_runtime example_audios example_transcript
          "assemblyai"
          (example_world (Some "secret") (concat (job_script <$> example_jobs)))
        = Some (Ok example_transcript, w')
        ∧ files w' !! path_str example_transcript
          = Some (example_block +:+ separator +:+ "Error: Audio too short"
                  +:+ separator +:+ "No text").
Proof.
  destruct (@reported_failure_is_isolated example_runtime "assemblyai"
              example_audios (job_script <$> example_jobs)
              [example_block; "Error: Audio too short"; "No text"]
              example_transcript "secret" []
              (example_world (Some "secret") (concat (job_script <$> example_jobs))))
    as (w' & Hrun & Hfiles & _).
  - reflexivity.
  - discriminate.
  - repeat constructor; eexists; reflexivity.
  - reflexivity.
  - exact exchange_examples.
  - reflexivity.
  - exists w'. split; [exact Hrun|]. rewrite Hfiles. apply lookup_insert_eq.
Defined.

(** The claim C7 as stated fails.  A completed result with no utterance
    and [text] set to [null] carries no fallback text, and the provider
    returns [None], not [No text]; with [text] set to the empty string it
    returns the empty string; with [utterances] set to [null] the loop
    over the utterances raises [TypeError]. *)
Lemma null_text_is_not_replaced :
  (∃ w', @_diarize_assemblyai example_runtime (example_audio 1)
           (example_world (Some "secret")
              (job_script (example_job example_null_text)))
         = Some (Ok VNone, w'))
  ∧ (∃ w', @_diarize_assemblyai example_runtime (example_audio 1)
             (example_world (Some "secret")
                (job_script (example_job example_empty_text)))
           = Some (Ok (VStr ""), w'))
  ∧ (∃ w', @_diarize_assemblyai example_runtime (example_audio 1)
             (example_world (Some "secret")
                (job_script (example_job example_null_utterances)))
           = Some (Raise TypeError, w')).
Proof. repeat split; eexists; vm_compute; reflexivity. Qed.

(** The claim C2 as stated fails: when the connection breaks during the
    upload of conversation 2 of 3, [phase4_diarize] raises the exception,
    the third conversation is not processed and no transcript is
    written. *)
Lemma transport_failure_aborts_run :
  ∃ w', @phase4_diarize example_runtime example_audios example_transcript
          "assemblyai" (example_world (Some "secret") broken_script)
        = Some (Raise ConnectionError, w')
        ∧ files w' !! path_str example_transcript = None
        ∧ net w' = job_script (example_job example_silent).
Proof. eexists. split; [vm_compute; reflexivity|]. split; reflexivity. Qed.

(** * Further properties *)

(** ** What the providers leave alone *)

Lemma network_only_refl w : network_only w w.
Proof.
  repeat split; try done; try lia. exists [], []. by rewrite app_nil_r.
Qed.

Lemma network_only_trans w1 w2 w3 :
  network_only w1 w2 → network_only w2 w3 → network_only w1 w3.
Proof.
  intros (He1 & Hc1 & Hf1 & Hp1 & Hs1 & r1 & u1 & Hsent1 & Hnet1 & Hl1)
         (He2 & Hc2 & Hf2 & Hp2 & Hs2 & r2 & u2 & Hsent2 & Hnet2 & Hl2).
  repeat split; try congruence; try lia.
  exists (r1 ++ r2), (u1 ++ u2). split; [|split].
  - by rewrite Hsent2, Hsent1, app_assoc.
  - by rewrite Hnet1, Hnet2, app_assoc.
  - rewrite !length_app. lia.
Qed.

Lemma keeps_ret {A} (a : A) : keeps_store (mret a).
Proof. intros w r w' [= <- <-]. apply network_only_refl. Qed.

Lemma keeps_lift {A} (r : result A) : keeps_store (lift r).
Proof. intros w r' w' [= <- <-]. apply network_only_refl. Qed.

Lemma keeps_bind {A B} (m : M A) (f : A → M B) :
  keeps_store m → (∀ a, keeps_store (f a)) → keeps_store (m ≫= f).
Proof.
  intros Hm Hf w r w'. unfold mbind, M_bind.
  destruct (m w) as [[[a|e] w1]|] eqn:Hrun; [| |done].
  - intros Hrun2. eapply network_only_trans; [by eapply Hm|by eapply Hf].
  - intros [= <- <-]. by eapply Hm.
Qed.

Lemma keeps_environ_get k : keeps_store (Sys.environ_get k).
Proof. intros w r w' [= <- <-]. apply network_only_refl. Qed.

Lemma keeps_read_file p : keeps_store (Sys.read_file p).
Proof.
  intros w r w'. unfold Sys.read_file.
  destruct (files w !! path_str p); intros [= <- <-]; apply network_only_refl.
Qed.

Lemma keeps_sleep s : 0 <= s → keeps_store (Sys.sleep s).
Proof.
  intros Hs w r w' [= <- <-]. repeat split; simpl; try done; try lia.
  exists [], []. by rewrite app_nil_r.
Qed.

Lemma keeps_http_json r : keeps_store (Sys.http_json r).
Proof.
  intros w o w'. unfold Sys.http_json.
  destruct (net w) as [|o' rest] eqn:Hnet; [done|]. intros [= <- <-].
  repeat split; simpl; try done; try lia.
  exists [r], [o']. by rewrite Hnet.
Qed.

Section ProvidersKeep.
Context `{PyRuntime}.

Lemma keeps_poll_loop fuel r : keeps_store (poll_loop fuel r).
Proof.
  induction fuel as [|fuel IH]; [done|]. simpl.
  apply keeps_bind; [apply keeps_http_json|]. intros res.
  apply keeps_bind; [apply keeps_lift|]. intros status.
  destruct (value_is status "completed"); [apply keeps_ret|].
  destruct (value_is status "error").
  - apply keeps_bind; [apply keeps_lift|]. intros err. apply keeps_ret.
  - apply keeps_bind; [by apply keeps_sleep|]. intros _. exact IH.
Qed.

Lemma keeps_poll r : keeps_store (poll r).
Proof. intros w o w'. unfold poll. apply keeps_poll_loop. Qed.

Lemma keeps_diarize_assemblyai audio : keeps_store (_diarize_assemblyai audio).
Proof.
  unfold _diarize_assemblyai.
  apply keeps_bind; [apply keeps_environ_get|]. intros api_key.
  destruct (negb (truthy api_key)); [apply keeps_ret|]. cbv zeta.
  apply keeps_bind; [apply keeps_read_file|]. intros content.
  apply keeps_bind; [apply keeps_http_json|]. intros upload.
  apply keeps_bind; [apply keeps_lift|]. intros upload_url.
  apply keeps_bind; [apply keeps_http_json|]. intros resp.
  apply keeps_bind; [apply keeps_lift|]. intros transcript_id.
  apply keeps_bind; [apply keeps_poll|]. intros [res|txt].
  - apply keeps_lift.
  - apply keeps_ret.
Qed.

Lemma keeps_diarize_gemini audio : keeps_store (_diarize_gemini audio).
Proof.
  unfold _diarize_gemini.
  apply keeps_bind; [apply keeps_environ_get|]. intros api_key.
  destruct (negb (truthy api_key)); [apply keeps_ret|].
  apply keeps_bind; [apply keeps_read_file|]. intros content.
  apply keeps_bind; [apply keeps_http_json|]. intros res.
  destruct (gemini_text res) as [txt|[]];
    first [apply keeps_ret | apply keeps_lift].
Qed.

Lemma keeps_diarize_one provider audio : keeps_store (diarize_one provider audio).
Proof.
  unfold diarize_one. repeat case_match;
    [apply keeps_diarize_assemblyai | apply keeps_diarize_gemini | apply keeps_ret].
Qed.

Lemma keeps_mapM {A B} (f : A → M B) (xs : list A) :
  (∀ x, keeps_store (f x)) → keeps_store (mapM_M f xs).
Proof.
  intros Hf. induction xs as [|x xs IH]; simpl; [apply keeps_ret|].
  apply keeps_bind; [apply Hf|]. intros y.
  apply keeps_bind; [exact IH|]. intros ys. apply keeps_ret.
Qed.

End ProvidersKeep.

(** X1: a provider, whatever the backend answers and however the call
    ends, does not touch the environment, the files or the process log;
    it sends exactly as many requests as it takes answers. *)
Theorem provider_moves_only_the_network `{PyRuntime} (provider : string)
    (audio : Path) (w w' : world) (r : result value) :
  diarize_one provider audio w = Some (r, w') → network_only w w'.
Proof. apply keeps_diarize_one. Qed.

(** X2: whenever [phase4_diarize] ends, either it returned the transcript
    path and the files are those of before plus the transcript, or it
    raised and the files are those of before: no partial transcript is
    ever written. *)
Theorem phase4_writes_all_or_nothing `{PyRuntime} (audio_files : list Path)
    (transcript_path : Path) (provider : string) (w w' : world)
    (r : result Path) :
  phase4_diarize audio_files transcript_path provider w = Some (r, w') →
  (r = Ok transcript_path
   ∧ ∃ content, files w' = <[path_str transcript_path := content]> (files w))
  ∨ ((∃ e, r = Raise e) ∧ files w' = files w).
Proof.
  unfold phase4_diarize. unfold mbind at 1, M_bind at 1. simpl.
  unfold mbind at 1, M_bind at 1.
  destruct (mapM_M (diarize_one provider) audio_files w)
    as [[[texts|e] w1]|] eqn:Hrun; [| |done].
  - pose proof (keeps_mapM _ _ (keeps_diarize_one provider) _ _ _ Hrun)
      as (_ & _ & Hfs & _).
    unfold mbind at 1, M_bind at 1, lift.
    destruct (join_values separator texts) as [full|e]; simpl.
    + intros [= <- <-]. left. split; [done|]. exists full. simpl. by rewrite Hfs.
    + intros [= <- <-]. right. split; [by exists e|done].
  - pose proof (keeps_mapM _ _ (keeps_diarize_one provider) _ _ _ Hrun)
      as (_ & _ & Hfs & _).
    intros [= <- <-]. right. split; [by exists e|done].
Qed.

(** ** Edges of the orchestrator and of the providers *)

(** X3: with a provider name that is neither [assemblyai] nor [gemini],
    [phase4_diarize] sends nothing, returns, and writes a transcript
    whose block, for every conversation, is [Unknown provider: <name>]. *)
Theorem unknown_provider_blocks `{PyRuntime} (provider : string)
    (audio_files : list Path) (transcript_path : Path) (w : world) :
  provider ≠ "assemblyai" → provider ≠ "gemini" →
  phase4_diarize audio_files transcript_path provider w
  = Some (Ok transcript_path,
          Sys.set_files
            (<[path_str transcript_path
               := str_join separator
                    (replicate (length audio_files)
                               ("Unknown provider: " +:+ provider))]> (files w))
            w).
Proof.
  intros Ha Hg. apply phase4_returns, diarize_all_same_text.
  intros audio. unfold diarize_one.
  apply String.eqb_neq in Ha, Hg. by rewrite Ha, Hg.
Qed.

(** X4: when the audio file of a conversation does not exist, a provider
    whose credential is set raises [FileNotFoundError] before it sends any
    request: the world is left as it was. *)
Theorem missing_audio_raises_before_request `{PyRuntime} (audio : Path)
    (api_key : string) (w : world) :
  files w !! path_str audio = None → api_key ≠ "" →
  (environ w !! "ASSEMBLYAI_API_KEY" = Some api_key →
   _diarize_assemblyai audio w = Some (Raise FileNotFoundError, w))
  ∧ (environ w !! "GEMINI_API_KEY" = Some api_key →
     _diarize_gemini audio w = Some (Raise FileNotFoundError, w)).
Proof.
  intros Hfile Hne.
  assert (Htruthy : truthy (Some api_key) = true) by (by destruct api_key).
  split; intros Hkey.
  - unfold _diarize_assemblyai.
    erewrite bind_ok; [|unfold Sys.environ_get; by rewrite Hkey].
    rewrite Htruthy. cbn [negb]. cbv zeta.
    erewrite bind_raise; [done|]. unfold Sys.read_file. by rewrite Hfile.
  - unfold _diarize_gemini.
    erewrite bind_ok; [|unfold Sys.environ_get; by rewrite Hkey].
    rewrite Htruthy. cbn [negb].
    erewrite bind_raise; [done|]. unfold Sys.read_file. by rewrite Hfile.
Qed.

Lemma http_json_run r w o rest :
  net w = o :: rest →
  Sys.http_json r w
  = Some (o, mkWorld (environ w) (cwd w) (files w) rest (sent w ++ [r])
                     (procs w) (slept w) (ffmpeg w)).
Proof. intros Hnet. unfold Sys.http_json. by rewrite Hnet. Qed.

(** X5: when the answer to the upload is a JSON object without the key
    [upload_url] (as the answer to a refused credential is), the
    asynchronous provider raises [KeyError]: it has sent the upload and
    nothing else, and no inline error text is produced. *)
Theorem assemblyai_upload_without_url `{PyRuntime} (audio : Path)
    (api_key content : string) (kvs : list (string * value))
    (rest : list (result value)) (w : world) :
  environ w !! "ASSEMBLYAI_API_KEY" = Some api_key → api_key ≠ "" →
  files w !! path_str audio = Some content →
  Py.dict_get kvs "upload_url" = None →
  net w = Ok (VDict kvs) :: rest →
  ∃ w', _diarize_assemblyai audio w = Some (Raise KeyError, w')
        ∧ sent w' = sent w ++ [upload_request api_key content]
        ∧ net w' = rest
        ∧ files w' = files w.
Proof.
  intros Hkey Hne Hfile Hurl Hnet.
  assert (Htruthy : truthy (Some api_key) = true) by (by destruct api_key).
  eexists. split.
  - unfold _diarize_assemblyai.
    erewrite bind_ok; [|unfold Sys.environ_get; by rewrite Hkey].
    rewrite Htruthy. cbn [negb]. cbv zeta.
    erewrite bind_ok; [|unfold Sys.read_file; by rewrite Hfile].
    erewrite bind_ok; [|by apply http_json_run].
    erewrite bind_raise; [reflexivity|].
    unfold lift. simpl. by rewrite Hurl.
  - by repeat split.
Qed.

Section Polling.
Context `{PyRuntime}.

(** The polling loop on a job that reaches a terminal status: what it
    sends and how long it sleeps. *)
Lemma poll_loop_log r pendings final out rest fuel w :
  net w = (Ok <$> pendings) ++ Ok final :: rest →
  Forall is_pending pendings →
  (length pendings < fuel)%nat →
  poll_end final out →
  ∃ w', poll_loop fuel r w = Some (Ok out, w')
        ∧ sent w' = sent w ++ replicate (S (length pendings)) r
        ∧ slept w' = slept w + 3 * Z.of_nat (length pendings)
        ∧ net w' = rest ∧ files w' = files w.
Proof.
  revert fuel w. induction pendings as [|res pendings IH];
    intros fuel w Hnet Hpend Hfuel Hend;
    (destruct fuel as [|fuel]; [simpl in Hfuel; lia|]); simpl in Hnet.
  - eexists. split.
    + simpl. erewrite bind_ok; [|by apply http_json_run].
      destruct Hend as [[Hs ->]|(Hs & err & Herr & ->)];
        (erewrite bind_ok; [|unfold lift; by rewrite Hs]); simpl;
        [reflexivity|].
      erewrite bind_ok; [|unfold lift; by rewrite Herr]. reflexivity.
    + simpl. repeat split; try done. lia.
  - apply Forall_cons in Hpend as [(status & Hs & Hnc & Hne) Hpend].
    set (w2 := mkWorld (environ w) (cwd w) (files w)
                       ((Ok <$> pendings) ++ Ok final :: rest)
                       (sent w ++ [r]) (procs w) (slept w + 3) (ffmpeg w)).
    destruct (IH fuel w2) as (w' & Hrun & Hsent & Hslept & Hnet' & Hfs); auto.
    { simpl in Hfuel. lia. }
    exists w'. split; [|split; [|split; [|split]]].
    + simpl. erewrite bind_ok; [|by apply http_json_run].
      erewrite bind_ok; [|unfold lift; by rewrite Hs].
      rewrite Hnc, Hne. erewrite bind_ok; [|reflexivity]. exact Hrun.
    + rewrite Hsent. simpl. by rewrite <- app_assoc.
    + rewrite Hslept. simpl. lia.
    + done.
    + by rewrite Hfs.
Qed.

(** The polling loop on answers that all leave the job unfinished. *)
Lemma poll_loop_pending r pendings fuel w :
  net w = Ok <$> pendings → Forall is_pending pendings →
  poll_loop fuel r w = None.
Proof.
  revert fuel w. induction pendings as [|res pendings IH];
    intros [|fuel] w Hnet Hpend; try done; simpl in Hnet.
  - simpl. apply bind_none. unfold Sys.http_json. by rewrite Hnet.
  - apply Forall_cons in Hpend as [(status & Hs & Hnc & Hne) Hpend].
    simpl. erewrite bind_ok; [|by apply http_json_run].
    erewrite bind_ok; [|unfold lift; by rewrite Hs].
    rewrite Hnc, Hne. erewrite bind_ok; [|reflexivity].
    by apply (IH fuel).
Qed.

End Polling.

(** X6: on a job that reaches a terminal status after [n] polls that
    found it unfinished, the asynchronous provider sends the upload, the
    submission, and [n + 1] times the same poll request, each with the
    credential in the [authorization] header, and sleeps 3 seconds after
    each unfinished poll: [3 n] seconds in all. *)
Theorem assemblyai_request_log `{PyRuntime} (audio : Path) (w : world)
    (api_key content : string) (upload resp upload_url id : value)
    (pendings : list value) (final : value) (out : value + value)
    (rest : list (result value)) :
  environ w !! "ASSEMBLYAI_API_KEY" = Some api_key → api_key ≠ "" →
  files w !! path_str audio = Some content →
  Py.subscript upload (KStr "upload_url") = Ok upload_url →
  Py.subscript resp (KStr "id") = Ok id →
  Forall is_pending pendings →
  poll_end final out →
  net w = Ok upload :: Ok resp :: (Ok <$> pendings) ++ Ok final :: rest →
  ∃ r w', _diarize_assemblyai audio w = Some (r, w')
          ∧ sent w'
            = sent w ++ upload_request api_key content
                     :: submit_request api_key upload_url
                     :: replicate (S (length pendings)) (poll_request api_key id)
          ∧ slept w' = slept w + 3 * Z.of_nat (length pendings)
          ∧ net w' = rest.
Proof.
  intros Hkey Hne Hfile Hup Hid Hpend Hend Hnet.
  assert (Htruthy : truthy (Some api_key) = true) by (by destruct api_key).
  set (w1 := mkWorld (environ w) (cwd w) (files w)
               (Ok resp :: (Ok <$> pendings) ++ Ok final :: rest)
               (sent w ++ [upload_request api_key content])
               (procs w) (slept w) (ffmpeg w)).
  set (w2 := mkWorld (environ w) (cwd w) (files w)
               ((Ok <$> pendings) ++ Ok final :: rest)
               (sent w1 ++ [submit_request api_key upload_url])
               (procs w) (slept w) (ffmpeg w)).
  destruct (poll_loop_log (poll_request api_key id) pendings final out rest
              (S (length (net w2))) w2)
    as (w3 & Hpoll & Hsent & Hslept & Hnet3 & _); auto.
  { simpl. rewrite length_app, length_fmap. simpl. lia. }
  exists (match out with inr t => Ok t | inl res => format_result res end), w3.
  split; [|split; [|split]].
  - unfold _diarize_assemblyai.
    erewrite bind_ok; [|unfold Sys.environ_get; by rewrite Hkey].
    rewrite Htruthy. cbn [negb]. cbv zeta.
    erewrite bind_ok; [|unfold Sys.read_file; by rewrite Hfile].
    erewrite bind_ok; [|by apply http_json_run].
    erewrite bind_ok; [|unfold lift; by rewrite Hup].
    erewrite bind_ok; [|by apply (http_json_run _ w1)].
    erewrite bind_ok; [|unfold lift; by rewrite Hid].
    erewrite bind_ok; [|exact Hpoll]. by destruct out.
  - rewrite Hsent. simpl. by rewrite <- !app_assoc.
  - by rewrite Hslept.
  - done.
Qed.

(** X7: while the backend answers the polls with a status that is
    neither [completed] nor [error], the asynchronous provider neither
    returns nor raises, however many such answers it gets: the polling
    loop has no bound. *)
Theorem assemblyai_polls_without_bound `{PyRuntime} (audio : Path) (w : world)
    (api_key content : string) (upload resp : value) (pendings : list value) :
  environ w !! "ASSEMBLYAI_API_KEY" = Some api_key → api_key ≠ "" →
  files w !! path_str audio = Some content →
  (∃ upload_url, Py.subscript upload (KStr "upload_url") = Ok upload_url) →
  (∃ id, Py.subscript resp (KStr "id") = Ok id) →
  Forall is_pending pendings →
  net w = Ok upload :: Ok resp :: (Ok <$> pendings) →
  _diarize_assemblyai audio w = None.
Proof.
  intros Hkey Hne Hfile [upload_url Hup] [id Hid] Hpend Hnet.
  assert (Htruthy : truthy (Some api_key) = true) by (by destruct api_key).
  unfold _diarize_assemblyai.
  erewrite bind_ok; [|unfold Sys.environ_get; by rewrite Hkey].
  rewrite Htruthy. cbn [negb]. cbv zeta.
  erewrite bind_ok; [|unfold Sys.read_file; by rewrite Hfile].
  erewrite bind_ok; [|by apply http_json_run].
  erewrite bind_ok; [|unfold lift; by rewrite Hup].
  erewrite bind_ok; [|by apply http_json_run].
  erewrite bind_ok; [|unfold lift; by rewrite Hid].
  apply bind_none. unfold poll. by eapply poll_loop_pending.
Qed.

(** ** The synchronous provider and the join *)

Lemma substring_prefix (n : nat) (s : string) :
  ∃ tail, s = String.substring 0 n s +:+ tail
          ∧ (String.length (String.substring 0 n s) ≤ n)%nat.
Proof.
  revert s. induction n as [|n IH]; intros s.
  - exists s. destruct s; simpl; split; auto.
  - destruct s as [|c s].
    + exists "". simpl. split; [done|lia].
    + destruct (IH s) as (tail & Hs & Hlen). exists tail.
      change (String.substring 0 (S n) (String c s))
        with (String c (String.substring 0 n s)).
      split; [|simpl; lia].
      change (String c s = String c (String.substring 0 n s +:+ tail)).
      by f_equal.
Qed.

(** X8: when a key or an index on the way to the text is missing in the
    response, the synchronous provider returns [Error: ] followed by a
    snippet of the serialised response: a prefix of it, of at most 200
    characters. *)
Theorem gemini_error_snippet_bounded `{PyRuntime} (audio : Path)
    (api_key : string) (res : value) (rest : list (result value)) (w : world) :
  environ w !! "GEMINI_API_KEY" = Some api_key → api_key ≠ "" →
  is_Some (files w !! path_str audio) →
  net w = Ok res :: rest →
  gemini_text res = Raise KeyError ∨ gemini_text res = Raise IndexError →
  ∃ w' snippet tail,
    _diarize_gemini audio w = Some (Ok (VStr ("Error: " +:+ snippet)), w')
    ∧ json_dumps res = snippet +:+ tail
    ∧ (String.length snippet ≤ 200)%nat
    ∧ net w' = rest.
Proof.
  intros Hkey Hne Hfile Hnet Hmiss.
  destruct (gemini_response audio res api_key rest w)
    as (w' & _ & Hnet' & Hrun); auto.
  destruct (substring_prefix 200 (json_dumps res)) as (tail & Hs & Hlen).
  exists w', (String.substring 0 200 (json_dumps res)), tail.
  split; [|done]. rewrite Hrun. by destruct Hmiss as [-> | ->].
Qed.

(** X9: when the response is not a JSON object, the lookup of the text
    raises [TypeError], which the handler of the synchronous provider
    does not catch: the provider raises it, after the request. *)
Theorem gemini_non_object_raises `{PyRuntime} (audio : Path)
    (api_key : string) (res : value) (rest : list (result value)) (w : world) :
  environ w !! "GEMINI_API_KEY" = Some api_key → api_key ≠ "" →
  is_Some (files w !! path_str audio) →
  net w = Ok res :: rest →
  (∀ kvs, res ≠ VDict kvs) →
  ∃ w', _diarize_gemini audio w = Some (Raise TypeError, w')
        ∧ length (sent w') = S (length (sent w))
        ∧ net w' = rest.
Proof.
  intros Hkey Hne Hfile Hnet Hobj.
  destruct (gemini_response audio res api_key rest w)
    as (w' & _ & Hnet' & Hrun); auto.
  assert (Htext : gemini_text res = Raise TypeError).
  { destruct res as [| | | | |kvs]; try done. by destruct (Hobj kvs). }
  rewrite Htext in Hrun.
  exists w'. split; [done|split; [|done]].
  - destruct (keeps_diarize_gemini audio w _ w' Hrun)
      as (_ & _ & _ & _ & _ & reqs & used & Hsent & Hused & Hlen).
    rewrite Hnet, Hnet' in Hused. rewrite Hsent, length_app, Hlen.
    assert (length (Ok res :: rest) = length (used ++ rest)) as Hl
      by (by rewrite Hused).
    rewrite length_app in Hl. simpl in Hl. lia.
Qed.

Lemma join_values_non_str sep (vs : list value) (v : value) :
  v ∈ vs → (∀ s, v ≠ VStr s) → join_values sep vs = Raise TypeError.
Proof.
  intros Hin Hv. unfold join_values.
  assert (Hmap : mapM (M := result) join_item vs = Raise TypeError).
  { induction vs as [|x vs IH]; [by apply elem_of_nil in Hin|].
    change (mapM (M := result) join_item (x :: vs))
      with (y ← join_item x;
            k ← mapM (M := result) join_item vs;
            mret (M := result) (y :: k)).
    apply elem_of_cons in Hin as [<-|Hin].
    - destruct v; try done. by destruct (Hv s).
    - rewrite (IH Hin). by destruct x. }
  by rewrite Hmap.
Qed.

Lemma mapM_M_app_ok {A B} (f : A → M B) xs ys w bs w1 cs w2 :
  mapM_M f xs w = Some (Ok bs, w1) →
  mapM_M f ys w1 = Some (Ok cs, w2) →
  mapM_M f (xs ++ ys) w = Some (Ok (bs ++ cs), w2).
Proof.
  revert w bs. induction xs as [|x xs IH]; intros w bs; simpl.
  - by intros [= <- <-].
  - unfold mbind at 1, M_bind at 1.
    destruct (f x w) as [[[y|e] w0]|] eqn:Hx; [|done|done].
    unfold mbind at 1, M_bind at 1.
    destruct (mapM_M f xs w0) as [[[ys'|e] w0']|] eqn:Hxs; [|done|done].
    intros [= <- <-] Hys.
    erewrite bind_ok; [|exact Hx].
    erewrite bind_ok; [|by eapply IH]. reflexivity.
Qed.

(** X10: when the backend completes the job of one conversation with no
    utterance and a [text] that is not a string (a JSON [null], say), the
    asynchronous provider returns that value as it is, in whatever world
    it is called with these answers next; [phase4_diarize] still
    processes every conversation, then raises [TypeError] at the join and
    writes no transcript. *)
Theorem non_string_text_aborts_transcript `{PyRuntime}
    (before after : list Path) (audio : Path)
    (scripts_before scripts_after : list (list (result value)))
    (blocks_before blocks_after : list string)
    (j : job) (kvs : list (string * value)) (v : value)
    (transcript_path : Path) (api_key : string)
    (rest : list (result value)) (w : world) :
  environ w !! "ASSEMBLYAI_API_KEY" = Some api_key → api_key ≠ "" →
  Forall (λ a, is_Some (files w !! path_str a)) (before ++ audio :: after) →
  length scripts_before = length before →
  length scripts_after = length after →
  Forall2 (exchange "assemblyai") scripts_before blocks_before →
  Forall2 (exchange "assemblyai") scripts_after blocks_after →
  (∃ upload_url, Py.subscript (job_upload j) (KStr "upload_url") = Ok upload_url) →
  (∃ id, Py.subscript (job_submit j) (KStr "id") = Ok id) →
  Forall is_pending (job_pending j) →
  job_final j = VDict kvs →
  has_status (job_final j) "completed" →
  Py.get (job_final j) "utterances" (VList []) = Ok (VList []) →
  Py.dict_get kvs "text" = Some v → (∀ s, v ≠ VStr s) →
  net w = concat scripts_before ++ job_script j ++ concat scripts_after ++ rest →
  (∀ w0 rest0,
     environ w0 !! "ASSEMBLYAI_API_KEY" = Some api_key →
     is_Some (files w0 !! path_str audio) →
     net w0 = job_script j ++ rest0 →
     ∃ w1, _diarize_assemblyai audio w0 = Some (Ok v, w1) ∧ net w1 = rest0)
  ∧ ∃ w', phase4_diarize (before ++ audio :: after) transcript_path
                         "assemblyai" w
          = Some (Raise TypeError, w')
          ∧ files w' = files w
          ∧ net w' = rest.
Proof.
  intros Hkey Hne Hfiles Hlb Hla Hexb Hexa Hup Hid Hpend Hfinal Hdone Hutt
         Htext Hv Hnet.
  split.
  { intros w0 rest0 Hkey0 [content0 Hfile0] Hnet0.
    destruct (assemblyai_polled audio w0 api_key content0 (job_upload j)
                (job_submit j) (job_pending j) (job_final j)
                (inl (job_final j)) rest0)
      as (w1 & Hrun & _ & Hnet1); auto.
    { left. by split. }
    { rewrite Hnet0. unfold job_script. simpl. by rewrite <- !app_assoc. }
    exists w1. split; [|done]. rewrite Hrun. do 2 f_equal.
    unfold format_result.
    rewrite Hutt. simpl. rewrite Hfinal. simpl. by rewrite Htext. }
  apply Forall_app in Hfiles as [Hfb Hfiles].
  apply Forall_cons in Hfiles as [[content Hfile] Hfa].
  destruct (diarize_all_exchanges "assemblyai" before scripts_before
              blocks_before api_key
              (job_script j ++ concat scripts_after ++ rest) w)
    as (w1 & Hrun1 & [Henv1 Hfs1] & Hnet1); auto.
  destruct (assemblyai_polled audio w1 api_key content (job_upload j)
              (job_submit j) (job_pending j) (job_final j)
              (inl (job_final j)) (concat scripts_after ++ rest))
    as (w2 & Hrun2 & [Henv2 Hfs2] & Hnet2); auto.
  { by rewrite Henv1. }
  { by rewrite Hfs1. }
  { left. by split. }
  { rewrite Hnet1. unfold job_script. simpl. by rewrite <- !app_assoc. }
  assert (Hone : _diarize_assemblyai audio w1 = Some (Ok v, w2)).
  { rewrite Hrun2. do 2 f_equal. unfold format_result.
    rewrite Hutt. simpl. rewrite Hfinal. simpl. by rewrite Htext. }
  destruct (diarize_all_exchanges "assemblyai" after scripts_after
              blocks_after api_key rest w2)
    as (w3 & Hrun3 & [Henv3 Hfs3] & Hnet3); auto.
  { by rewrite Henv2, Henv1. }
  { eapply Forall_impl; [exact Hfa|]. intros a. by rewrite Hfs2, Hfs1. }
  assert (Hall : mapM_M (diarize_one "assemblyai") (before ++ audio :: after) w
                 = Some (Ok ((VStr <$> blocks_before)
                             ++ v :: (VStr <$> blocks_after)), w3)).
  { eapply mapM_M_app_ok; [exact Hrun1|]. simpl.
    erewrite bind_ok; [|exact Hone].
    erewrite bind_ok; [|exact Hrun3]. reflexivity. }
  exists w3. split; [|split; [congruence|done]].
  unfold phase4_diarize.
  erewrite bind_ok; [|reflexivity].
  erewrite bind_ok; [|exact Hall].
  erewrite bind_raise; [reflexivity|].
  unfold lift. f_equal. f_equal.
  apply (join_values_non_str _ _ v); [|done].
  apply elem_of_app. right. by left.
Qed.

(** ** Phase 3: the merge of a group *)

Lemma absolute_idem chunk w :
  is_absolute chunk → Sys.absolute chunk w = Some (Ok chunk, w).
Proof. intros [d Hd]. unfold Sys.absolute. by rewrite Hd. Qed.

Lemma filelist_lines_absolute conv w :
  Forall is_absolute conv →
  mapM_M (λ chunk, a ← Sys.absolute chunk;
                   mret ("file '" +:+ path_str a +:+ "'" +:+ nl)) conv w
  = Some (Ok (filelist_line <$> conv), w).
Proof.
  induction 1 as [|chunk conv Habs _ IH]; [done|]. simpl.
  erewrite bind_ok; [|erewrite bind_ok; [reflexivity|by apply absolute_idem]].
  erewrite bind_ok; [|exact IH]. reflexivity.
Qed.

Lemma mapM_M_length {A B} (f : A → M B) xs w ys w' :
  mapM_M f xs w = Some (Ok ys, w') → length ys = length xs.
Proof.
  revert w ys. induction xs as [|x xs IH]; intros w ys; simpl.
  - by intros [= <- <-].
  - unfold mbind at 1, M_bind at 1.
    destruct (f x w) as [[[y|e] w1]|]; [|done|done].
    unfold mbind at 1, M_bind at 1.
    destruct (mapM_M f xs w1) as [[[ys'|e] w2]|] eqn:Hrest; [|done|done].
    intros [= <- <-]. simpl. f_equal. by eapply IH.
Qed.

(** The steps of [concat_one] on a group whose size is not 1: the list
    file is written, the tool is run on the files that contain it, and
    the list file is removed if the tool returned. *)
Lemma concat_one_steps output_dir i conv w :
  length conv ≠ 1%nat →
  ∃ lines,
    (Forall is_absolute conv → lines = filelist_line <$> conv)
    ∧ length lines = length conv
    ∧ concat_one output_dir i conv w
      = let listed := <[path_str (merge_filelist output_dir i)
                        := fold_right String.append "" lines]> (files w) in
        let w0 := mkWorld (environ w) (cwd w) listed (net w) (sent w)
                          (procs w ++ [merge_command output_dir i])
                          (slept w) (ffmpeg w) in
        match ffmpeg w (merge_command output_dir i) listed with
        | Raise e => Some (Raise e, w0)
        | Ok fs =>
            match fs !! path_str (merge_filelist output_dir i) with
            | Some _ =>
                Some (Ok (merged_output output_dir i),
                      Sys.set_files
                        (delete (path_str (merge_filelist output_dir i)) fs) w0)
            | None => Some (Raise FileNotFoundError, Sys.set_files fs w0)
            end
        end.
Proof.
  intros Hlen%Nat.eqb_neq.
  destruct (filelist_lines conv w) as [lines Hlines].
  exists lines. split; [|split].
  - intros Habs. rewrite (filelist_lines_absolute conv w Habs) in Hlines.
    by injection Hlines.
  - by apply mapM_M_length in Hlines.
  - unfold concat_one. rewrite Hlen.
    erewrite bind_ok; [|exact Hlines].
    erewrite bind_ok; [|reflexivity].
    unfold mbind at 1, M_bind, Sys.subprocess_run. simpl.
    destruct (ffmpeg w _ _) as [fs|e]; simpl; [|done].
    unfold Sys.unlink, mbind, M_bind. simpl. by destruct (fs !! _).
Qed.

Lemma concat_loop_singletons output_dir groups k w :
  Forall (λ g : list Path, length g = 1%nat) groups →
  mapM_M (λ '(i, conv), concat_one output_dir i conv) (enumerate_from k groups) w
  = Some (Ok (concat groups), w).
Proof.
  intros Hall. revert k. induction Hall as [|g groups Hg _ IH]; intros k; [done|].
  destruct g as [|chunk [|]]; try done. simpl.
  erewrite bind_ok; [|reflexivity].
  erewrite bind_ok; [|apply IH]. reflexivity.
Qed.

Lemma merged_indices_from_cons k conv (convs : list (list Path)) :
  fst <$> filter (λ p, length (snd p) ≠ 1%nat) (enumerate_from k (conv :: convs))
  = (if decide (length conv ≠ 1%nat) then [k] else [])
    ++ (fst <$> filter (λ p, length (snd p) ≠ 1%nat) (enumerate_from (S k) convs)).
Proof.
  simpl. rewrite filter_cons. simpl. by destruct (decide (length conv ≠ 1%nat)).
Qed.

Lemma concat_loop_log output_dir conversations k w outputs w' :
  mapM_M (λ '(i, conv), concat_one output_dir i conv)
         (enumerate_from k conversations) w = Some (Ok outputs, w') →
  procs w'
  = procs w ++ (merge_command output_dir
                <$> (fst <$> filter (λ p, length (snd p) ≠ 1%nat)
                                    (enumerate_from k conversations)))
  ∧ ∀ i conv, conversations !! i = Some conv → length conv ≠ 1%nat →
              outputs !! i = Some (merged_output output_dir (k + i)).
Proof.
  revert k w outputs. induction conversations as [|conv convs IH];
    intros k w outputs.
  { simpl. intros [= <- <-]. rewrite app_nil_r. split; [done|].
    intros i conv. by rewrite lookup_nil. }
  rewrite merged_indices_from_cons.
  cbn [enumerate_from mapM_M].
  unfold mbind at 1, M_bind at 1.
  destruct (concat_one output_dir k conv w) as [[[out1|e1] w1]|] eqn:Hone;
    [|done|done].
  unfold mbind at 1, M_bind at 1.
  destruct (mapM_M _ (enumerate_from (S k) convs) w1)
    as [[[outs|e2] w2]|] eqn:Hrest; [|done|done].
  intros [= <- <-].
  destruct (IH _ _ _ Hrest) as [Hprocs Houts].
  destruct (decide (length conv ≠ 1%nat)) as [Hlen|Hlen].
  - destruct (concat_one_steps output_dir k conv w Hlen) as (lines & _ & _ & Hrun).
    rewrite Hone in Hrun. cbv zeta in Hrun.
    destruct (ffmpeg w _ _) as [fs|e]; [|done].
    destruct (fs !! _); [|done]. injection Hrun as -> ->.
    split.
    + rewrite Hprocs. simpl. by rewrite <- app_assoc.
    + intros [|i] conv0; simpl.
      * intros _ _. do 2 f_equal. lia.
      * intros Hlk Hl. rewrite (Houts i conv0 Hlk Hl). do 2 f_equal. lia.
  - assert (Hlen1 : length conv = 1%nat) by lia.
    destruct conv as [|chunk [|]]; try done.
    injection Hone as <- <-. split.
    + by rewrite Hprocs.
    + intros [|i] conv0; simpl.
      * by intros [= <-].
      * intros Hlk Hl. rewrite (Houts i conv0 Hlk Hl). do 2 f_equal. lia.
Qed.

(** X11: when [phase3_concat] returns, the merge tool was run once for
    each group whose size is not 1, in order, and for no other; the
    artifact of such a group at index [i] is
    [conversation_<i+1>.wav] in the output directory. *)
Theorem merge_runs_once_per_larger_group (conversations : list (list Path))
    (output_dir : Path) (w w' : world) (outputs : list Path) :
  phase3_concat conversations output_dir w = Some (Ok outputs, w') →
  procs w'
  = procs w ++ (merge_command output_dir <$> merged_indices conversations)
  ∧ ∀ i conv, conversations !! i = Some conv → length conv ≠ 1%nat →
              outputs !! i = Some (merged_output output_dir i).
Proof.
  unfold phase3_concat, concat_loop. erewrite bind_ok; [|reflexivity].
  intros Hrun. by apply concat_loop_log in Hrun.
Qed.

(** X12: for a group of chunks with absolute paths, whose size is not 1,
    the merge tool is run on files that contain the list file, one line
    [file '<path>'] per chunk in the order of the group; when the tool
    returns and has left the list file, the list file is removed and the
    artifact is [conversation_<i+1>.wav], whether the tool has created it
    or not. *)
Theorem merge_list_file_written_then_removed (output_dir : Path) (i : nat)
    (conv : list Path) (w : world) (fs : gmap string string) :
  length conv ≠ 1%nat →
  Forall is_absolute conv →
  ffmpeg w (merge_command output_dir i)
         (<[path_str (merge_filelist output_dir i)
            := fold_right String.append "" (filelist_line <$> conv)]> (files w))
  = Ok fs →
  is_Some (fs !! path_str (merge_filelist output_dir i)) →
  ∃ w', concat_one output_dir i conv w
        = Some (Ok (merged_output output_dir i), w')
        ∧ files w' = delete (path_str (merge_filelist output_dir i)) fs
        ∧ procs w' = procs w ++ [merge_command output_dir i].
Proof.
  intros Hlen Habs Htool [content Hlist].
  destruct (concat_one_steps output_dir i conv w Hlen) as (lines & Hl & _ & Hrun).
  rewrite (Hl Habs) in Hrun. cbv zeta in Hrun. rewrite Htool, Hlist in Hrun.
  eexists. split; [exact Hrun|]. by split.
Qed.

(** X13: when the merge tool cannot be run ([subprocess.run] raises),
    [phase3_concat] raises that exception at the first group whose size
    is not 1: the groups after it are not processed, the tool was
    started once, and the list file of that group is left behind. *)
Theorem merge_tool_failure_stops_phase3 (singles others : list (list Path))
    (conv : list Path) (output_dir : Path) (e : exn) (w : world) :
  Forall (λ g : list Path, length g = 1%nat) singles →
  length conv ≠ 1%nat →
  (∀ args fs, ffmpeg w args fs = Raise e) →
  ∃ w', phase3_concat (singles ++ conv :: others) output_dir w
        = Some (Raise e, w')
        ∧ procs w' = procs w ++ [merge_command output_dir (length singles)]
        ∧ is_Some (files w' !! path_str (merge_filelist output_dir (length singles))).
Proof.
  intros Hsingles Hlen Htool.
  unfold phase3_concat, concat_loop, enumerate.
  erewrite bind_ok; [|reflexivity].
  assert (Hloop : ∀ k,
    ∃ w', mapM_M (λ '(i, c), concat_one output_dir i c)
                 (enumerate_from k (singles ++ conv :: others)) w
          = Some (Raise e, w')
          ∧ procs w' = procs w ++ [merge_command output_dir (k + length singles)]
          ∧ is_Some (files w' !! path_str
                       (merge_filelist output_dir (k + length singles)))).
  { induction Hsingles as [|g singles Hg _ IH]; intros k.
    - simpl.
      destruct (concat_one_steps output_dir k conv w Hlen)
        as (lines & _ & _ & Hrun).
      cbv zeta in Hrun. rewrite Htool in Hrun.
      eexists. split; [by erewrite bind_raise|].
      replace (k + 0)%nat with k by lia. simpl.
      split; [done|]. rewrite lookup_insert_eq. by eexists.
    - destruct g as [|chunk [|]]; try done.
      destruct (IH (S k)) as (w' & Hrun & Hprocs & Hfile).
      exists w'. simpl. split.
      + erewrite bind_ok; [|reflexivity]. by erewrite bind_raise.
      + by replace (k + S (length singles))%nat
          with (S k + length singles)%nat by lia. }
  apply (Hloop 0%nat).
Qed.

(** ** How the phases compose *)

Lemma singletons_of_concat {A} (gs : list (list A)) :
  Forall (λ g : list A, length g = 1%nat) gs →
  gs = (λ x, [x]) <$> concat gs.
Proof.
  induction 1 as [|g gs Hg _ IH]; [done|].
  destruct g as [|x [|]]; try done. simpl. by f_equal.
Qed.

(** X14: when all the chunks are more than 600 seconds apart, phase 2
    puts every chunk in a group of its own, and on these groups the loop
    of phase 3 returns the chunks themselves and does nothing else: no
    list file is written and the merge tool is not run. *)
Theorem far_apart_chunks_pass_through (chunks : list Path) (output_dir : Path)
    (w : world) :
  (∀ i gap, (0 < i < length chunks)%nat → gap_at chunks i = Ok gap → 600 < gap) →
  phase2_segment chunks = Ok ((λ chunk, [chunk]) <$> chunks)
  ∧ concat_loop output_dir ((λ chunk, [chunk]) <$> chunks) w
    = Some (Ok chunks, w).
Proof.
  intros Hbig. split.
  - destruct chunks as [|chunk0 rest] eqn:Hchunks; [done|]. rewrite <- Hchunks in *.
    assert (Hne : chunks ≠ []) by (by rewrite Hchunks).
    destruct (phase2_segment_spec chunks Hne)
      as (groups & Hrun & Hcat & Hall & Hst).
    assert (Hn : length groups = length chunks).
    { rewrite (length_groups _ _ Hst), filter_all.
      - rewrite length_seq. rewrite Hchunks. simpl. lia.
      - intros i Hi%elem_of_seq.
        destruct (gap_at_total chunks i) as [gap Hgap]; [lia|].
        unfold new_group_at. rewrite Hgap. apply Z.ltb_lt.
        apply (Hbig i); [lia|done]. }
    assert (Hsingle : Forall (λ g : list Path, length g = 1%nat) groups).
    { apply singletons_of_length; [done|]. by rewrite Hcat. }
    rewrite Hrun, (singletons_of_concat groups Hsingle), Hcat. done.
  - unfold concat_loop, enumerate.
    rewrite concat_loop_singletons.
    + do 3 f_equal. clear Hbig.
      induction chunks as [|c cs IH]; [done|]. simpl. by f_equal.
    + apply Forall_fmap, Forall_forall. done.
Qed.

Lemma merge_paths_differ output_dir i :
  path_str (merged_output output_dir i) ≠ path_str (merge_filelist output_dir i).
Proof.
  unfold path_str, merged_output, merge_filelist, joinpath, name. simpl.
  intros Heq. apply String.app_inj in Heq. discriminate.
Qed.

(** X15: the exit status of the merge tool is not looked at.  When the
    tool returns without having changed the files, the merge stage still
    returns the path [conversation_<i+1>.wav]; no such file exists, and
    the asynchronous provider called on it raises [FileNotFoundError]
    before any request. *)
Theorem unmerged_artifact_breaks_diarization `{PyRuntime} (output_dir : Path)
    (i : nat) (conv : list Path) (api_key : string) (w : world) :
  length conv ≠ 1%nat →
  (∀ fs, ffmpeg w (merge_command output_dir i) fs = Ok fs) →
  files w !! path_str (merged_output output_dir i) = None →
  environ w !! "ASSEMBLYAI_API_KEY" = Some api_key → api_key ≠ "" →
  ∃ w', concat_one output_dir i conv w
        = Some (Ok (merged_output output_dir i), w')
        ∧ _diarize_assemblyai (merged_output output_dir i) w'
          = Some (Raise FileNotFoundError, w').
Proof.
  intros Hlen Htool Hout Hkey Hne.
  destruct (concat_one_steps output_dir i conv w Hlen) as (lines & _ & _ & Hrun).
  cbv zeta in Hrun. rewrite Htool, lookup_insert_eq in Hrun.
  eexists. split; [exact Hrun|].
  assert (Htruthy : truthy (Some api_key) = true) by (by destruct api_key).
  unfold _diarize_assemblyai.
  erewrite bind_ok; [|unfold Sys.environ_get; simpl; by rewrite Hkey].
  rewrite Htruthy. cbn [negb]. cbv zeta.
  erewrite bind_raise; [done|]. unfold Sys.read_file. simpl.
  rewrite lookup_delete_ne by (intros Heq; by apply (merge_paths_differ output_dir i)).
  rewrite lookup_insert_ne by (intros Heq; by apply (merge_paths_differ output_dir i)).
  by rewrite Hout.
Qed.

(** ** More on the segmentation *)

Lemma foldM_ext_in {A B} (f g : A → B → result A) (a : A) (bs : list B) :
  (∀ a' b, b ∈ bs → f a' b = g a' b) → foldM f a bs = foldM g a bs.
Proof.
  revert a. induction bs as [|b bs IH]; intros a Hfg; simpl; [done|].
  rewrite (Hfg a b) by left. destruct (g a b) as [a'|e]; simpl; [|done].
  apply IH. intros a'' b' Hb. apply Hfg. by right.
Qed.

(** X16: the segmentation can be continued.  When the chunks segment
    into groups ending with the group [last], the chunks followed by one
    more chunk [c] segment into the same groups, with [c] added to
    [last] if the gap from the last chunk to [c] is at most 600, and
    followed by the new group [[c]] otherwise. *)
Theorem segment_continues (chunks : list Path) (c prev : Path)
    (groups : list (list Path)) (last_group : list Path) :
  phase2_segment chunks = Ok (groups ++ [last_group]) →
  last chunks = Some prev →
  ∃ gap,
    pair_gap (stem prev) (stem c) = Ok gap
    ∧ phase2_segment (chunks ++ [c])
      = Ok (if 600 <? gap then groups ++ [last_group; [c]]
            else groups ++ [last_group ++ [c]]).
Proof.
  intros Hrun Hlast.
  destruct chunks as [|chunk0 rest]; [done|].
  destruct (pair_gap_total (stem prev) (stem c)) as [gap Hgap].
  exists gap. split; [done|].
  unfold phase2_segment in Hrun.
  replace (length (chunk0 :: rest) - 1)%nat with (length rest) in Hrun
    by (simpl; lia).
  destruct (foldM (segment_step (chunk0 :: rest)) ([], [chunk0])
              (seq 1 (length rest))) as [[convs cur]|e] eqn:Hfold; [|done].
  simpl in Hrun. injection Hrun as Hrun.
  apply app_inj_tail in Hrun as [-> ->].
  unfold phase2_segment.
  change ((chunk0 :: rest) ++ [c]) with (chunk0 :: (rest ++ [c])).
  replace (length (chunk0 :: rest ++ [c]) - 1)%nat with (S (length rest))
    by (simpl; rewrite length_app; simpl; lia).
  rewrite seq_S, foldM_app.
  rewrite (foldM_ext_in _ (segment_step (chunk0 :: rest))).
  2:{ intros [convs cur] i Hi%elem_of_seq. unfold segment_step, getitem.
      change (chunk0 :: rest ++ [c]) with ((chunk0 :: rest) ++ [c]).
      rewrite !lookup_app_l by (simpl; lia). done. }
  rewrite Hfold. simpl.
  unfold getitem. replace (length rest - 0)%nat with (length rest) by lia.
  assert (Hprev : (chunk0 :: rest ++ [c]) !! length rest = Some prev).
  { change (chunk0 :: rest ++ [c]) with ((chunk0 :: rest) ++ [c]).
    rewrite lookup_app_l by (simpl; lia).
    rewrite last_lookup in Hlast. exact Hlast. }
  assert (Hcurr : (chunk0 :: rest ++ [c]) !! S (length rest) = Some c).
  { simpl. rewrite lookup_app_r by lia. by rewrite Nat.sub_diag. }
  rewrite Hprev, Hcurr. simpl. rewrite Hgap. simpl.
  destruct (600 <? gap); simpl; [|done].
  by rewrite <- app_assoc.
Qed.

Lemma segment_step_fmap (f : Path → Path) (chunks : list Path)
    (convs : list (list Path)) (cur : list Path) (i : nat) :
  (∀ p, stem (f p) = stem p) →
  segment_step (f <$> chunks) ((λ g : list Path, f <$> g) <$> convs, f <$> cur) i
  = match segment_step chunks (convs, cur) i with
    | Ok (convs', cur') => Ok ((λ g : list Path, f <$> g) <$> convs', f <$> cur')
    | Raise e => Raise e
    end.
Proof.
  intros Hf. unfold segment_step, getitem. rewrite !list_lookup_fmap.
  destruct (chunks !! (i - 1)%nat) as [prev|]; simpl; [|done].
  destruct (chunks !! i) as [curr|]; simpl; [|done].
  rewrite !Hf. destruct (pair_gap (stem prev) (stem curr)) as [gap|e]; simpl; [|done].
  destruct (600 <? gap).
  - by rewrite fmap_app.
  - by rewrite fmap_app.
Qed.

Lemma segment_loop_fmap (f : Path → Path) (chunks : list Path)
    (convs : list (list Path)) (cur : list Path) (idxs : list nat) :
  (∀ p, stem (f p) = stem p) →
  foldM (segment_step (f <$> chunks))
        ((λ g : list Path, f <$> g) <$> convs, f <$> cur) idxs
  = match foldM (segment_step chunks) (convs, cur) idxs with
    | Ok (convs', cur') =>
        Ok ((λ g : list Path, f <$> g) <$> convs', f <$> cur')
    | Raise e => Raise e
    end.
Proof.
  intros Hf. revert convs cur. induction idxs as [|i idxs IH]; intros convs cur.
  - done.
  - cbn [foldM]. rewrite (segment_step_fmap f chunks convs cur i Hf).
    destruct (segment_step chunks (convs, cur) i) as [[convs' cur']|e];
      [exact (IH convs' cur')|done].
Qed.

(** X17: the segmentation reads nothing of a chunk but its stem.  Under
    any renaming of the chunks that keeps every stem (another directory,
    another suffix), the groups are the renamed groups. *)
Theorem segment_depends_on_stems_only (f : Path → Path) (chunks : list Path)
    (groups : list (list Path)) :
  (∀ p, stem (f p) = stem p) →
  phase2_segment chunks = Ok groups →
  phase2_segment (f <$> chunks) = Ok ((λ g : list Path, f <$> g) <$> groups).
Proof.
  intros Hf. destruct chunks as [|chunk0 rest]; [by intros [= <-]|].
  pose proof (segment_loop_fmap f (chunk0 :: rest) [] [chunk0]
                (seq 1 (length (chunk0 :: rest) - 1)) Hf) as Hloop.
  unfold phase2_segment. rewrite fmap_cons.
  change (f chunk0 :: (f <$> rest)) with (f <$> chunk0 :: rest).
  rewrite length_fmap.
  change (foldM (segment_step (f <$> chunk0 :: rest)) ([], [f chunk0]))
    with (foldM (segment_step (f <$> chunk0 :: rest))
            ((λ g : list Path, f <$> g) <$> [], f <$> [chunk0])).
  rewrite Hloop. clear Hloop.
  destruct (foldM (segment_step (chunk0 :: rest)) _ _) as [[convs cur]|e];
    simpl; [|done].
  intros [= <-]. by rewrite fmap_app.
Qed.

(** X18: for three names whose timestamps parse, the gaps add up: the
    gap from the first to the third is the gap from the first to the
    second plus the gap from the second to the third; in particular the
    gap from a name to itself is 0. *)
Theorem gaps_add_up (a b c : string) (ta tb tc : datetime) :
  chunk_time a = Ok ta → chunk_time b = Ok tb → chunk_time c = Ok tc →
  ∃ gab gbc gac,
    pair_gap a b = Ok gab ∧ pair_gap b c = Ok gbc ∧ pair_gap a c = Ok gac
    ∧ gac = gab + gbc
    ∧ pair_gap a a = Ok 0.
Proof.
  intros Ha Hb Hc.
  rewrite (pair_gap_parsed _ _ _ _ Ha Hb), (pair_gap_parsed _ _ _ _ Hb Hc),
    (pair_gap_parsed _ _ _ _ Ha Hc), (pair_gap_parsed _ _ _ _ Ha Ha).
  eexists _, _, _. repeat split; try reflexivity.
  - rewrite !total_seconds_sub. lia.
  - f_equal. rewrite total_seconds_sub. lia.
Qed.

Lemma toordinal_bounds t :
  valid_datetime t → 1 <= Datetime.toordinal t <= 3652060.
Proof.
  intros Hv. pose proof (day_of_year_bounds t Hv) as Hd.
  destruct Hv as (Hy & _).
  pose proof (days_before_year_mono 1 (year t) ltac:(lia)) as H1.
  pose proof (days_before_year_mono (year t) 9999 ltac:(lia)) as H2.
  change (Datetime.days_before_year 1) with 0 in H1.
  change (Datetime.days_before_year 9999) with 3651694 in H2.
  unfold Datetime.toordinal, year_length in *.
  destruct (Datetime.is_leap (year t)); lia.
Qed.

(** X19: the gap computed for any two names, parsed or not, is an
    integer below 2^39 in absolute value, so that the float
    [total_seconds()] holds it exactly. *)
Theorem gap_is_bounded (prev_name curr_name : string) (gap : Z) :
  pair_gap prev_name curr_name = Ok gap → Z.abs gap < 2 ^ 39.
Proof.
  destruct (chunk_time prev_name) as [tp|ep] eqn:Hp.
  - destruct (chunk_time curr_name) as [tc|ec] eqn:Hc.
    + rewrite (pair_gap_parsed _ _ _ _ Hp Hc). intros [= <-].
      rewrite total_seconds_sub.
      pose proof (toordinal_bounds _ (chunk_time_valid _ _ Hp)).
      pose proof (toordinal_bounds _ (chunk_time_valid _ _ Hc)).
      destruct (chunk_time_valid _ _ Hp) as (_ & _ & _ & ? & ? & ?).
      destruct (chunk_time_valid _ _ Hc) as (_ & _ & _ & ? & ? & ?).
      change (2 ^ 39) with 549755813888. lia.
    + rewrite pair_gap_unparseable by (right; by exists ec).
      intros [= <-]. done.
  - rewrite pair_gap_unparseable by (left; by exists ep).
    intros [= <-]. done.
Qed.

(** ** Names that parse *)

Lemma match_alt_app (p : Regex.alt) (f rest : string) :
  (length p ≤ String.length f)%nat →
  Regex.match_alt p (f +:+ rest)
  = match Regex.match_alt p f with
    | Some (m, r) => Some (m, r +:+ rest)
    | None => None
    end.
Proof.
  revert f. induction p as [|cl p IH]; intros f Hlen; [done|].
  destruct f as [|c f]; [simpl in Hlen; lia|]. simpl.
  destruct (cl c); [|done].
  rewrite IH by (simpl in Hlen; lia).
  by destruct (Regex.match_alt p f) as [[m r]|].
Qed.

Lemma match_group_app (g : Regex.group) (f rest : string) :
  Forall (λ p, (length p ≤ String.length f)%nat) g →
  Regex.match_group g (f +:+ rest)
  = (λ mr, (fst mr, snd mr +:+ rest)) <$> Regex.match_group g f.
Proof.
  unfold Regex.match_group.
  induction 1 as [|p g Hp _ IH]; [done|].
  change (omap (λ p0, Regex.match_alt p0 (f +:+ rest)) (p :: g))
    with (match Regex.match_alt p (f +:+ rest) with
          | Some y => y :: omap (λ p0, Regex.match_alt p0 (f +:+ rest)) g
          | None => omap (λ p0, Regex.match_alt p0 (f +:+ rest)) g
          end).
  change (omap (λ p0, Regex.match_alt p0 f) (p :: g))
    with (match Regex.match_alt p f with
          | Some y => y :: omap (λ p0, Regex.match_alt p0 f) g
          | None => omap (λ p0, Regex.match_alt p0 f) g
          end).
  rewrite (match_alt_app p f rest Hp), IH.
  by destruct (Regex.match_alt p f) as [[m r]|].
Qed.

Lemma field_ok_spec g s n :
  field_ok g s n = true →
  PyStr.py_int s = n
  ∧ ∀ rest, head (Regex.match_group g (s +:+ rest)) = Some (s, rest).
Proof.
  unfold field_ok.
  destruct (head (Regex.match_group g s)) as [[m r]|] eqn:Hhead; [|done].
  rewrite !andb_true_iff.
  intros [[[Hm%String.eqb_eq Hr%String.eqb_eq] Hn%Z.eqb_eq] Hall].
  subst m r. split; [done|]. intros rest.
  rewrite match_group_app.
  - destruct (Regex.match_group g s) as [|[m r] tl]; [done|].
    simpl in Hhead. injection Hhead as -> ->. done.
  - apply Forall_forall. intros p Hp.
    rewrite forallb_forall in Hall. apply Nat.leb_le, Hall.
    by apply list_elem_of_In.
Qed.

Lemma match_groups_head g gs f rest ms rest' :
  head (Regex.match_group g (f +:+ rest)) = Some (f, rest) →
  head (Regex.match_groups gs rest) = Some (ms, rest') →
  head (Regex.match_groups (g :: gs) (f +:+ rest)) = Some (f :: ms, rest').
Proof.
  intros Hg Hgs. cbn [Regex.match_groups].
  destruct (Regex.match_group g (f +:+ rest)) as [|[m r] tl]; [done|].
  injection Hg as -> ->. rewrite bind_cons.
  destruct (Regex.match_groups gs rest) as [|[ms0 r0] tl']; [done|].
  injection Hgs as -> ->. reflexivity.
Qed.

Lemma forallb_range (f : Z → bool) (lo len : Z) :
  forallb f (seqZ lo len) = true → ∀ n, lo <= n < lo + len → f n = true.
Proof.
  intros Hall n Hn. rewrite forallb_forall in Hall.
  apply Hall, list_elem_of_In, elem_of_seqZ. lia.
Qed.

Lemma year_field n :
  1 <= n <= 9999 →
  field_ok Datetime.rx_Y (pad4 n) n = true ∧ has_no_c (pad4 n) = true.
Proof.
  intros Hn. apply andb_true_iff.
  apply (forallb_range
           (λ n, field_ok Datetime.rx_Y (pad4 n) n && has_no_c (pad4 n)) 1 9999);
    [vm_compute; reflexivity | lia].
Qed.

Lemma month_field n :
  1 <= n <= 12 →
  field_ok Datetime.rx_m (pad2 n) n = true ∧ has_no_c (pad2 n) = true.
Proof.
  intros Hn. apply andb_true_iff.
  apply (forallb_range
           (λ n, field_ok Datetime.rx_m (pad2 n) n && has_no_c (pad2 n)) 1 12);
    [vm_compute; reflexivity | lia].
Qed.

Lemma day_field n :
  1 <= n <= 31 →
  field_ok Datetime.rx_d (pad2 n) n = true ∧ has_no_c (pad2 n) = true.
Proof.
  intros Hn. apply andb_true_iff.
  apply (forallb_range
           (λ n, field_ok Datetime.rx_d (pad2 n) n && has_no_c (pad2 n)) 1 31);
    [vm_compute; reflexivity | lia].
Qed.

Lemma hour_field n :
  0 <= n <= 23 →
  field_ok Datetime.rx_H (pad2 n) n = true ∧ has_no_c (pad2 n) = true.
Proof.
  intros Hn. apply andb_true_iff.
  apply (forallb_range
           (λ n, field_ok Datetime.rx_H (pad2 n) n && has_no_c (pad2 n)) 0 24);
    [vm_compute; reflexivity | lia].
Qed.

Lemma minute_field n :
  0 <= n <= 59 →
  field_ok Datetime.rx_M (pad2 n) n = true ∧ has_no_c (pad2 n) = true.
Proof.
  intros Hn. apply andb_true_iff.
  apply (forallb_range
           (λ n, field_ok Datetime.rx_M (pad2 n) n && has_no_c (pad2 n)) 0 60);
    [vm_compute; reflexivity | lia].
Qed.

Lemma second_field n :
  0 <= n <= 59 →
  field_ok Datetime.rx_S (pad2 n) n = true ∧ has_no_c (pad2 n) = true.
Proof.
  intros Hn. apply andb_true_iff.
  apply (forallb_range
           (λ n, field_ok Datetime.rx_S (pad2 n) n && has_no_c (pad2 n)) 0 60);
    [vm_compute; reflexivity | lia].
Qed.

Lemma literal_head (c : ascii) gs rest ms rest' :
  head (Regex.match_groups gs rest) = Some (ms, rest') →
  head (Regex.match_groups (Datetime.rx_lit c :: gs) (String c rest))
  = Some (String c "" :: ms, rest').
Proof.
  intros Hgs.
  apply (match_groups_head (Datetime.rx_lit c) gs (String c "") rest); [|done].
  simpl. unfold PyStr.is_char. by rewrite Ascii.eqb_refl.
Qed.

Lemma has_no_c_app s1 s2 :
  has_no_c (s1 +:+ s2) = has_no_c s1 && has_no_c s2.
Proof.
  induction s1 as [|a s1 IH]; [done|]. simpl. rewrite IH.
  apply andb_assoc.
Qed.

Lemma find_without_c s : has_no_c s = true → PyStr.find "chunk_" s = None.
Proof.
  induction s as [|a s IH]; [reflexivity|].
  cbn [has_no_c PyStr.find PyStr.strip_prefix].
  destruct (Ascii.eqb "c" a); [done|]. cbn [negb andb].
  intros Hs. by rewrite (IH Hs).
Qed.

Lemma strptime_chunk_stamp t :
  valid_datetime t → Datetime.strptime (chunk_stamp t) = Ok t.
Proof.
  intros (Hy & Hm & Hd & HH & HM & HS).
  pose proof (days_in_month_bounds (year t) (month t)) as Hdim.
  destruct (year_field (year t) Hy) as [[HYi HYm]%field_ok_spec _].
  destruct (month_field (month t) Hm) as [[Hmi Hmm]%field_ok_spec _].
  destruct (day_field (day t) ltac:(lia)) as [[Hdi Hdm]%field_ok_spec _].
  destruct (hour_field (hour t) HH) as [[HHi HHm]%field_ok_spec _].
  destruct (minute_field (minute t) HM) as [[HMi HMm]%field_ok_spec _].
  destruct (second_field (second t) HS) as [[HSi HSm]%field_ok_spec _].
  assert (Hmatch :
    Regex.re_match Datetime.format_regex (chunk_stamp t)
    = Some ([pad4 (year t); "-"; pad2 (month t); "-"; pad2 (day t); "_";
             pad2 (hour t); "-"; pad2 (minute t); "-"; pad2 (second t)], "")).
  { unfold Regex.re_match, Datetime.format_regex, chunk_stamp.
    apply match_groups_head; [apply HYm|]. apply literal_head.
    apply match_groups_head; [apply Hmm|]. apply literal_head.
    apply match_groups_head; [apply Hdm|]. apply literal_head.
    apply match_groups_head; [apply HHm|]. apply literal_head.
    apply match_groups_head; [apply HMm|]. apply literal_head.
    replace (pad2 (second t)) with (pad2 (second t) +:+ "") at 1 by reflexivity.
    apply match_groups_head; [apply HSm|]. reflexivity. }
  unfold Datetime.strptime. rewrite Hmatch. cbn [negb String.eqb].
  rewrite HYi, Hmi, Hdi, HHi, HMi, HSi.
  unfold Datetime.make.
  assert (Hchecks :
    (1 <=? year t) && (year t <=? 9999) && (1 <=? month t) && (month t <=? 12)
    && (1 <=? day t) && (day t <=? Datetime.days_in_month (year t) (month t))
    && (0 <=? hour t) && (hour t <=? 23) && (0 <=? minute t)
    && (minute t <=? 59) && (0 <=? second t) && (second t <=? 59) = true).
  { repeat (apply andb_true_intro; split); apply Z.leb_le; lia. }
  rewrite Hchecks. by destruct t.
Qed.

Lemma chunk_time_chunk_stem (t : datetime) :
  valid_datetime t → chunk_time (chunk_stem t) = Ok t.
Proof.
  intros Hv. pose proof Hv as (Hy & Hm & Hd & HH & HM & HS).
  pose proof (days_in_month_bounds (year t) (month t)) as Hdim.
  assert (Hnoc : has_no_c (chunk_stamp t) = true).
  { unfold chunk_stamp. rewrite !has_no_c_app.
    rewrite (proj2 (year_field (year t) Hy)), (proj2 (month_field (month t) Hm)),
      (proj2 (day_field (day t) ltac:(lia))), (proj2 (hour_field (hour t) HH)),
      (proj2 (minute_field (minute t) HM)), (proj2 (second_field (second t) HS)).
    reflexivity. }
  assert (Hsplit : PyStr.split "chunk_" (chunk_stem t) = [""; chunk_stamp t]).
  { unfold PyStr.split, chunk_stem.
    change (String.length ("chunk_" +:+ chunk_stamp t))
      with (S (S (4 + String.length (chunk_stamp t)))).
    cbn [PyStr.split_aux].
    change (PyStr.find "chunk_" ("chunk_" +:+ chunk_stamp t))
      with (Some ("", chunk_stamp t)).
    cbv iota beta. cbn [PyStr.split_aux].
    rewrite (find_without_c _ Hnoc). reflexivity. }
  unfold chunk_time. rewrite Hsplit. simpl. by apply strptime_chunk_stamp.
Qed.

(** X20: a name written as the comment of the loop describes,
    [chunk_YYYY-MM-DD_HH-MM-SS] with zero-padded fields, parses back to
    the date and time it was written from, for every date of the
    calendar from year 1 to year 9999. *)
Theorem chunk_name_round_trip (t : datetime) :
  valid_datetime t → chunk_time (chunk_stem t) = Ok t.
Proof. apply chunk_time_chunk_stem. Qed.

(** X21: for two names written in that format the gap is the number of
    seconds from the first instant to the second, counted on the
    calendar: the difference of the days since year 1, times 86400, plus
    the difference of the seconds of the day. *)
Theorem well_formed_names_gap (a b : datetime) :
  valid_datetime a → valid_datetime b →
  pair_gap (chunk_stem a) (chunk_stem b) = Ok (timestamp b - timestamp a).
Proof.
  intros Ha Hb.
  rewrite (pair_gap_parsed _ _ a b) by (by apply chunk_time_chunk_stem).
  f_equal. rewrite total_seconds_sub. unfold timestamp. lia.
Qed.

(** ** Phase 1 *)

Section DetectionProperties.
Context `{SpeechHost}.

Lemma read_detection_procs chunk w r w' :
  read_detection chunk w = Some (r, w') → procs w' = procs w.
Proof.
  unfold read_detection.
  destruct (files w !! _) as [content|]; [|by intros [= <- <-]].
  unfold mbind, M_bind, lift, Sys.unlink.
  destruct (json_loads content) as [data|e]; [|by intros [= <- <-]].
  destruct (Py.get data "text" (VStr "")) as [txt|e]; [|by intros [= <- <-]].
  destruct (str_strip txt) as [stripped|e]; [|by intros [= <- <-]].
  destruct (files w !! _); by intros [= <- <-].
Qed.

Lemma detect_one_procs chunk w r w' :
  detect_one chunk w = Some (r, w') →
  procs w' = procs w ++ [whisper_command chunk].
Proof.
  unfold detect_one.
  destruct (whisper _ _) as [fs|fs|e].
  - unfold keep_on_missing.
    destruct (read_detection chunk _) as [[r0 w0]|] eqn:Hread; [|done].
    apply read_detection_procs in Hread. simpl in Hread.
    destruct r0 as [keep|[]]; by intros [= <- <-].
  - by intros [= <- <-].
  - destruct e; by intros [= <- <-].
Qed.

Lemma detect_loop_spec chunks acc w speech w' :
  detect_loop chunks acc w = Some (Ok speech, w') →
  (∃ kept, speech = acc ++ kept ∧ kept `sublist_of` chunks)
  ∧ procs w' = procs w ++ (whisper_command <$> chunks).
Proof.
  revert acc w. induction chunks as [|chunk rest IH]; intros acc w; simpl.
  - intros [= <- <-]. rewrite !app_nil_r. split; [|done].
    exists []. by rewrite app_nil_r.
  - unfold mbind at 1, M_bind at 1.
    destruct (detect_one chunk w) as [[[keep|e] w1]|] eqn:Hone; [|done|done].
    apply detect_one_procs in Hone. intros Hrest.
    destruct (IH _ _ Hrest) as [(kept & -> & Hsub) Hprocs]. split.
    + destruct keep.
      * exists (chunk :: kept). rewrite <- app_assoc. split; [done|].
        by apply sublist_skip.
      * exists kept. split; [done|]. by apply sublist_cons.
    + rewrite Hprocs, Hone. by rewrite <- app_assoc.
Qed.

Lemma detect_loop_keeps_all chunks acc w :
  (∀ args fs, (∃ fs', whisper args fs = RunTimedOut fs')
              ∨ whisper args fs = RunRaised FileNotFoundError) →
  ∃ w', detect_loop chunks acc w = Some (Ok (acc ++ chunks), w').
Proof.
  intros Hopen. revert acc w. induction chunks as [|chunk rest IH]; intros acc w.
  - exists w. simpl. by rewrite app_nil_r.
  - assert (∃ w1, detect_one chunk w = Some (Ok true, w1)) as [w1 Hone].
    { unfold detect_one.
      destruct (Hopen (whisper_command chunk) (files w)) as [[fs' ->]| ->];
        by eexists. }
    destruct (IH (acc ++ [chunk]) w1) as [w' Hrest].
    exists w'. cbn [detect_loop]. erewrite bind_ok; [|exact Hone].
    cbv beta iota. by rewrite Hrest, <- app_assoc.
Qed.

Lemma detect_loop_drops_all chunks acc w :
  (∀ args fs, whisper args fs = RunReturned fs) →
  (∀ chunk, chunk ∈ chunks → files w !! path_str (whisper_json chunk) = None) →
  ∃ w', detect_loop chunks acc w = Some (Ok acc, w') ∧ files w' = files w.
Proof.
  intros Hidle. revert w. induction chunks as [|chunk rest IH]; intros w Hnone.
  - by exists w.
  - assert (∃ w1, detect_one chunk w = Some (Ok false, w1)
                  ∧ files w1 = files w) as (w1 & Hone & Hfs).
    { unfold detect_one. rewrite Hidle.
      unfold keep_on_missing, read_detection. simpl.
      rewrite (Hnone chunk) by left. by eexists. }
    destruct (IH w1) as (w' & Hrest & Hfs').
    { intros c Hc. rewrite Hfs. apply Hnone. by right. }
    exists w'. cbn [detect_loop]. erewrite bind_ok; [|exact Hone].
    cbv beta iota. split; [done|congruence].
Qed.

End DetectionProperties.

(** X22: whenever the speech detection returns, the chunks it returns
    are chunks of the input in the order of the input, none repeated or
    added, and the detector was started exactly once for each input
    chunk, in order. *)
Theorem detection_keeps_order `{SpeechHost} (date_dir : Path)
    (chunks speech_chunks : list Path) (w w' : world) :
  phase1_detect_speech date_dir chunks w = Some (Ok speech_chunks, w') →
  speech_chunks `sublist_of` chunks
  ∧ procs w' = procs w ++ (whisper_command <$> chunks).
Proof.
  intros Hrun. apply detect_loop_spec in Hrun as [(kept & -> & Hsub) Hprocs].
  by split.
Qed.

(** X23: the detection fails open on a detector that is absent or too
    slow: when every run of the detector raises [FileNotFoundError] or
    is stopped at the timeout, the detection returns all the chunks. *)
Theorem detection_fails_open `{SpeechHost} (date_dir : Path)
    (chunks : list Path) (w : world) :
  (∀ args fs, (∃ fs', whisper args fs = RunTimedOut fs')
              ∨ whisper args fs = RunRaised FileNotFoundError) →
  ∃ w', phase1_detect_speech date_dir chunks w = Some (Ok chunks, w').
Proof.
  intros Hopen. by apply (detect_loop_keeps_all chunks []).
Qed.

(** X24: the detection does not fail open on a detector that runs and
    writes nothing: when every run of the detector returns without a
    JSON file for the chunk, every chunk is dropped; the detection
    returns the empty list and leaves the files as they were. *)
Theorem detection_drops_chunks_without_output `{SpeechHost} (date_dir : Path)
    (chunks : list Path) (w : world) :
  (∀ args fs, whisper args fs = RunReturned fs) →
  (∀ chunk, chunk ∈ chunks → files w !! path_str (whisper_json chunk) = None) →
  ∃ w', phase1_detect_speech date_dir chunks w = Some (Ok [], w')
        ∧ files w' = files w.
Proof.
  intros Hidle Hnone. by apply (detect_loop_drops_all chunks []).
Qed.

(** X25: when the detector has written its JSON result for a chunk, the
    chunk is kept exactly when the text of the result, stripped of the
    white space around it, has more than 10 characters; the JSON file is
    removed. *)
Theorem detector_output_is_consumed `{SpeechHost} (chunk : Path) (w : world)
    (fs : gmap string string) (content : string) (data : value)
    (said : string) :
  whisper (whisper_command chunk) (files w) = RunReturned fs →
  fs !! path_str (whisper_json chunk) = Some content →
  json_loads content = Ok data →
  Py.get data "text" (VStr "") = Ok (VStr said) →
  ∃ w', detect_one chunk w
        = Some (Ok (10 <? String.length (rstrip (lstrip said)))%nat, w')
        ∧ files w' = delete (path_str (whisper_json chunk)) fs.
Proof.
  intros Hrun Hjson Hloads Htext.
  eexists. split.
  - unfold detect_one. rewrite Hrun.
    unfold keep_on_missing, read_detection. simpl. rewrite Hjson.
    unfold mbind, M_bind, lift, Sys.unlink. rewrite Hloads, Htext. simpl.
    rewrite Hjson. reflexivity.
  - reflexivity.
Qed.

(** ** The further properties at concrete inputs *)

(** A whole job of the asynchronous provider: five answers are taken,
    five requests are sent, and the two unfinished polls are slept on. *)
Lemma provider_moves_only_the_network_witness :
  ∃ w', @diarize_one example_runtime "assemblyai" (example_audio 1)
          (example_world (Some "secret")
             (job_script (example_job example_completed)))
        = Some (Ok (VStr example_block), w')
        ∧ length (sent w') = 5%nat ∧ net w' = [] ∧ slept w' = 6
        ∧ network_only
            (example_world (Some "secret")
               (job_script (example_job example_completed))) w'.
Proof.
  eexists. split; [vm_compute; reflexivity|].
  split; [reflexivity|]. split; [reflexivity|]. split; [reflexivity|].
  apply (@provider_moves_only_the_network example_runtime "assemblyai"
           (example_audio 1) _ _ (Ok (VStr example_block))).
  vm_compute. reflexivity.
Defined.

Lemma phase4_writes_all_or_nothing_witness :
  ∃ w', @phase4_diarize example_runtime example_audios example_transcript
          "assemblyai" (example_world (Some "secret") broken_script)
        = Some (Raise ConnectionError, w')
        ∧ files w' = files (example_world (Some "secret") broken_script).
Proof.
  destruct (@phase4_diarize example_runtime example_audios example_transcript
              "assemblyai" (example_world (Some "secret") broken_script))
    as [[r w']|] eqn:Hrun; [|vm_compute in Hrun; discriminate].
  exists w'.
  destruct (@phase4_writes_all_or_nothing example_runtime example_audios
              example_transcript "assemblyai"
              (example_world (Some "secret") broken_script) w' r Hrun)
    as [[-> _]|[[e ->] Hfs]].
  - vm_compute in Hrun. discriminate.
  - split; [|exact Hfs]. vm_compute in Hrun. injection Hrun as <- _.
    reflexivity.
Defined.

Lemma unknown_provider_blocks_witness :
  ∃ w', @phase4_diarize example_runtime example_audios example_transcript
          "whisperx" (example_world None [])
        = Some (Ok example_transcript, w')
        ∧ files w' !! path_str example_transcript
          = Some ("Unknown provider: whisperx" +:+ separator
                  +:+ "Unknown provider: whisperx" +:+ separator
                  +:+ "Unknown provider: whisperx").
Proof.
  eexists. split.
  - apply (@unknown_provider_blocks example_runtime "whisperx");
      discriminate.
  - simpl. apply lookup_insert_eq.
Defined.

Lemma missing_audio_raises_before_request_witness :
  @_diarize_assemblyai example_runtime (example_audio 9)
    (example_world (Some "secret") [])
  = Some (Raise FileNotFoundError, example_world (Some "secret") []).
Proof.
  apply (@missing_audio_raises_before_request example_runtime
           (example_audio 9) "secret" (example_world (Some "secret") []));
    [reflexivity | discriminate | reflexivity].
Defined.

Lemma assemblyai_upload_without_url_witness :
  ∃ w', @_diarize_assemblyai example_runtime (example_audio 1)
          (example_world (Some "secret") [Ok example_refused])
        = Some (Raise KeyError, w')
        ∧ sent w' = [upload_request "secret" "RIFF1"].
Proof.
  destruct (@assemblyai_upload_without_url example_runtime (example_audio 1)
              "secret" "RIFF1"
              [("error", VStr "Authentication error, API token missing/invalid")]
              [] (example_world (Some "secret") [Ok example_refused]))
    as (w' & Hrun & Hsent & _);
    [reflexivity | discriminate | reflexivity | reflexivity | reflexivity |].
  exists w'. split; [exact Hrun|exact Hsent].
Defined.

Lemma assemblyai_request_log_witness :
  ∃ r w', @_diarize_assemblyai example_runtime (example_audio 1)
            (example_world (Some "secret")
               (job_script (example_job example_failed)))
          = Some (r, w')
          ∧ length (sent w') = 5%nat
          ∧ slept w' = 6.
Proof.
  destruct (@assemblyai_request_log example_runtime (example_audio 1)
              (example_world (Some "secret")
                 (job_script (example_job example_failed)))
              "secret" "RIFF1"
              (job_upload (example_job example_failed))
              (job_submit (example_job example_failed))
              (VStr "https://cdn.example/upload/1") (VStr "job-1")
              (job_pending (example_job example_failed))
              example_failed (inr (VStr "Error: Audio too short")) [])
    as (r & w' & Hrun & Hsent & Hslept & _).
  - reflexivity.
  - discriminate.
  - reflexivity.
  - reflexivity.
  - reflexivity.
  - exact is_pending_example.
  - right. split; [reflexivity|]. eexists. by split.
  - reflexivity.
  - exists r, w'. split; [exact Hrun|]. split.
    + by rewrite Hsent.
    + by rewrite Hslept.
Defined.

Lemma assemblyai_polls_without_bound_witness :
  @_diarize_assemblyai example_runtime (example_audio 1)
    (example_world (Some "secret")
       [Ok (job_upload (example_job example_failed));
        Ok (job_submit (example_job example_failed));
        Ok (VDict [("status", VStr "queued")]);
        Ok (VDict [("status", VStr "processing")])])
  = None.
Proof.
  apply (@assemblyai_polls_without_bound example_runtime (example_audio 1)
           (example_world (Some "secret")
              [Ok (job_upload (example_job example_failed));
               Ok (job_submit (example_job example_failed));
               Ok (VDict [("status", VStr "queued")]);
               Ok (VDict [("status", VStr "processing")])])
           "secret" "RIFF1"
           (job_upload (example_job example_failed))
           (job_submit (example_job example_failed))
           (job_pending (example_job example_failed))).
  - reflexivity.
  - discriminate.
  - reflexivity.
  - eexists. reflexivity.
  - eexists. reflexivity.
  - exact is_pending_example.
  - reflexivity.
Defined.

Lemma gemini_error_snippet_bounded_witness :
  ∃ w' snippet,
    @_diarize_gemini example_runtime (example_audio 1)
      (gemini_world [Ok example_refused])
    = Some (Ok (VStr ("Error: " +:+ snippet)), w')
    ∧ (String.length snippet ≤ 200)%nat.
Proof.
  destruct (@gemini_error_snippet_bounded example_runtime (example_audio 1)
              "secret" example_refused [] (gemini_world [Ok example_refused]))
    as (w' & snippet & tail & Hrun & _ & Hlen & _).
  - reflexivity.
  - discriminate.
  - eexists. reflexivity.
  - reflexivity.
  - left. reflexivity.
  - exists w', snippet. by split.
Defined.

Lemma gemini_non_object_raises_witness :
  ∃ w', @_diarize_gemini example_runtime (example_audio 1)
          (gemini_world [Ok (VList [])])
        = Some (Raise TypeError, w').
Proof.
  destruct (@gemini_non_object_raises example_runtime (example_audio 1)
              "secret" (VList []) [] (gemini_world [Ok (VList [])]))
    as (w' & Hrun & _).
  - reflexivity.
  - discriminate.
  - eexists. reflexivity.
  - reflexivity.
  - discriminate.
  - by exists w'.
Defined.

Lemma exchange_example_completed :
  Forall2 (@exchange example_runtime "assemblyai")
          [job_script (example_job example_completed)] [example_block].
Proof.
  constructor; [|constructor]. apply (@exchange_job example_runtime).
  split; [eexists; reflexivity|]. split; [eexists; reflexivity|].
  split; [exact is_pending_example|]. left. by split.
Defined.

Lemma non_string_text_aborts_transcript_witness :
  (∃ w1, @_diarize_assemblyai example_runtime (example_audio 2)
           (example_world (Some "secret")
              (job_script (example_job example_null_text)))
         = Some (Ok VNone, w1)
         ∧ net w1 = [])
  ∧ ∃ w', @phase4_diarize example_runtime example_audios example_transcript
            "assemblyai"
            (example_world (Some "secret")
               (job_script (example_job example_completed)
                ++ job_script (example_job example_null_text)
                ++ job_script (example_job example_completed)))
          = Some (Raise TypeError, w')
          ∧ files w' !! path_str example_transcript = None
          ∧ net w' = [].
Proof.
  destruct (@non_string_text_aborts_transcript example_runtime
              [example_audio 1] [example_audio 3] (example_audio 2)
              [job_script (example_job example_completed)]
              [job_script (example_job example_completed)]
              [example_block] [example_block]
              (example_job example_null_text)
              [("status", VStr "completed"); ("text", VNone);
               ("utterances", VList [])]
              VNone example_transcript "secret" []
              (example_world (Some "secret")
                 (job_script (example_job example_completed)
                  ++ job_script (example_job example_null_text)
                  ++ job_script (example_job example_completed))))
    as (Hone & w' & Hrun & Hfs & Hnet).
  - reflexivity.
  - discriminate.
  - repeat constructor; eexists; reflexivity.
  - reflexivity.
  - reflexivity.
  - exact exchange_example_completed.
  - exact exchange_example_completed.
  - eexists. reflexivity.
  - eexists. reflexivity.
  - exact is_pending_example.
  - reflexivity.
  - reflexivity.
  - reflexivity.
  - reflexivity.
  - discriminate.
  - reflexivity.
  - split.
    + apply (Hone (example_world (Some "secret")
                     (job_script (example_job example_null_text))) []).
      * reflexivity.
      * eexists. reflexivity.
      * reflexivity.
    + exists w'. split; [exact Hrun|]. split; [|exact Hnet].
      rewrite Hfs. reflexivity.
Defined.

Lemma merge_runs_once_per_larger_group_witness :
  ∃ outputs w',
    phase3_concat [example_pair; [chunk_at "2026-02-28_10-20-00"]]
                  example_output_dir (example_world None [])
    = Some (Ok outputs, w')
    ∧ procs w' = [merge_command example_output_dir 0]
    ∧ outputs !! 0%nat = Some (merged_output example_output_dir 0).
Proof.
  destruct (phase3_concat [example_pair; [chunk_at "2026-02-28_10-20-00"]]
              example_output_dir (example_world None []))
    as [[[outputs|e] w']|] eqn:Hrun;
    [|vm_compute in Hrun; discriminate|vm_compute in Hrun; discriminate].
  exists outputs, w'. split; [reflexivity|].
  destruct (merge_runs_once_per_larger_group _ _ _ _ _ Hrun) as [Hprocs Hout].
  split; [exact Hprocs|].
  apply (Hout 0%nat example_pair); [reflexivity|discriminate].
Defined.

Lemma merge_list_file_written_then_removed_witness :
  ∃ w', concat_one example_output_dir 0 example_pair (example_world None [])
        = Some (Ok (merged_output example_output_dir 0), w')
        ∧ files w' !! path_str (merge_filelist example_output_dir 0) = None.
Proof.
  destruct (merge_list_file_written_then_removed example_output_dir 0
              example_pair (example_world None [])
              (<[path_str (merge_filelist example_output_dir 0)
                 := fold_right String.append ""
                      (filelist_line <$> example_pair)]>
                 (files (example_world None []))))
    as (w' & Hrun & Hfs & _).
  - discriminate.
  - repeat constructor; eexists; reflexivity.
  - reflexivity.
  - rewrite lookup_insert_eq. by eexists.
  - exists w'. split; [exact Hrun|]. rewrite Hfs. apply lookup_delete_eq.
Defined.

Lemma merge_tool_failure_stops_phase3_witness :
  ∃ w', phase3_concat [[chunk_at "2026-02-28_09-00-00"]; example_pair;
                       [chunk_at "2026-02-28_10-20-00"]]
                      example_output_dir toolless_world
        = Some (Raise FileNotFoundError, w')
        ∧ procs w' = [merge_command example_output_dir 1]
        ∧ is_Some (files w' !! path_str (merge_filelist example_output_dir 1)).
Proof.
  apply (merge_tool_failure_stops_phase3
           [[chunk_at "2026-02-28_09-00-00"]]
           [[chunk_at "2026-02-28_10-20-00"]] example_pair
           example_output_dir FileNotFoundError toolless_world).
  - by repeat constructor.
  - discriminate.
  - reflexivity.
Defined.

Lemma far_chunks_gaps i gap :
  (0 < i < length far_chunks)%nat → gap_at far_chunks i = Ok gap → 600 < gap.
Proof.
  intros Hi. assert (i = 1 ∨ i = 2)%nat as [-> | ->] by (simpl in Hi; lia);
    intros [= <-]; reflexivity.
Defined.

Lemma far_apart_chunks_pass_through_witness :
  phase2_segment far_chunks
  = Ok [[chunk_at "2026-02-28_10-00-00"]; [chunk_at "2026-02-28_10-20-00"];
        [chunk_at "2026-02-28_11-00-00"]]
  ∧ concat_loop example_output_dir
      [[chunk_at "2026-02-28_10-00-00"]; [chunk_at "2026-02-28_10-20-00"];
       [chunk_at "2026-02-28_11-00-00"]] (example_world None [])
    = Some (Ok far_chunks, example_world None []).
Proof.
  apply (far_apart_chunks_pass_through far_chunks example_output_dir
           (example_world None [])).
  exact far_chunks_gaps.
Defined.

Lemma unmerged_artifact_breaks_diarization_witness :
  ∃ w', concat_one example_output_dir 0 example_pair unmerged_world
        = Some (Ok (merged_output example_output_dir 0), w')
        ∧ @_diarize_assemblyai example_runtime
            (merged_output example_output_dir 0) w'
          = Some (Raise FileNotFoundError, w').
Proof.
  apply (@unmerged_artifact_breaks_diarization example_runtime
           example_output_dir 0 example_pair "secret" unmerged_world);
    [discriminate | reflexivity | reflexivity | reflexivity | discriminate].
Defined.

Lemma segment_continues_witness :
  ∃ gap,
    pair_gap (stem (chunk_at "2026-02-28_10-04-00"))
             (stem (chunk_at "2026-02-28_10-20-00")) = Ok gap
    ∧ phase2_segment (example_pair ++ [chunk_at "2026-02-28_10-20-00"])
      = Ok (if 600 <? gap
            then [] ++ [example_pair; [chunk_at "2026-02-28_10-20-00"]]
            else [] ++ [example_pair ++ [chunk_at "2026-02-28_10-20-00"]]).
Proof.
  apply (segment_continues example_pair (chunk_at "2026-02-28_10-20-00")
           (chunk_at "2026-02-28_10-04-00") [] example_pair); reflexivity.
Defined.

Lemma segment_depends_on_stems_only_witness :
  phase2_segment ((λ p, mkPath "/elsewhere/" (stem p) ".m4a") <$> example_chunks)
  = Ok ((λ g : list Path, (λ p, mkPath "/elsewhere/" (stem p) ".m4a") <$> g)
        <$> [example_pair; [chunk_at "2026-02-28_10-20-00"]]).
Proof.
  apply (segment_depends_on_stems_only
           (λ p, mkPath "/elsewhere/" (stem p) ".m4a") example_chunks
           [example_pair; [chunk_at "2026-02-28_10-20-00"]]);
    [reflexivity | reflexivity].
Defined.

Lemma gaps_add_up_witness :
  ∃ gab gbc gac,
    pair_gap "chunk_2026-02-28_10-00-00" "chunk_2026-02-28_10-04-00" = Ok gab
    ∧ pair_gap "chunk_2026-02-28_10-04-00" "chunk_2026-03-01_00-00-01" = Ok gbc
    ∧ pair_gap "chunk_2026-02-28_10-00-00" "chunk_2026-03-01_00-00-01" = Ok gac
    ∧ gac = gab + gbc
    ∧ pair_gap "chunk_2026-02-28_10-00-00" "chunk_2026-02-28_10-00-00" = Ok 0.
Proof.
  apply (gaps_add_up "chunk_2026-02-28_10-00-00" "chunk_2026-02-28_10-04-00"
           "chunk_2026-03-01_00-00-01"
           (mkDatetime 2026 2 28 10 0 0) (mkDatetime 2026 2 28 10 4 0)
           (mkDatetime 2026 3 1 0 0 1)); reflexivity.
Defined.

Lemma gap_is_bounded_witness : Z.abs 50401 < 2 ^ 39.
Proof.
  apply (gap_is_bounded "chunk_2026-02-28_10-00-00" "chunk_2026-03-01_00-00-01").
  reflexivity.
Defined.

Lemma example_instant_valid : valid_datetime (mkDatetime 2026 2 28 10 4 0).
Proof. unfold valid_datetime. vm_compute. repeat split; discriminate. Defined.

Lemma leap_instant_valid : valid_datetime (mkDatetime 2028 2 29 23 59 59).
Proof. unfold valid_datetime. vm_compute. repeat split; discriminate. Defined.

Lemma chunk_name_round_trip_witness :
  chunk_stem (mkDatetime 2028 2 29 23 59 59) = "chunk_2028-02-29_23-59-59"
  ∧ chunk_time "chunk_2028-02-29_23-59-59" = Ok (mkDatetime 2028 2 29 23 59 59).
Proof.
  split; [reflexivity|].
  apply (chunk_name_round_trip (mkDatetime 2028 2 29 23 59 59)).
  exact leap_instant_valid.
Defined.

Lemma well_formed_names_gap_witness :
  pair_gap "chunk_2026-02-28_10-04-00" "chunk_2028-02-29_23-59-59"
  = Ok (timestamp (mkDatetime 2028 2 29 23 59 59)
        - timestamp (mkDatetime 2026 2 28 10 4 0)).
Proof.
  apply (well_formed_names_gap (mkDatetime 2026 2 28 10 4 0)
           (mkDatetime 2028 2 29 23 59 59));
    [exact example_instant_valid | exact leap_instant_valid].
Defined.

Lemma detection_keeps_order_witness :
  ∃ speech_chunks w',
    @phase1_detect_speech writing_detector (mkPath "/rec/" "2026-02-28" "")
      example_chunks (example_world None [])
    = Some (Ok speech_chunks, w')
    ∧ speech_chunks `sublist_of` example_chunks
    ∧ length (procs w') = 3%nat.
Proof.
  destruct (@phase1_detect_speech writing_detector
              (mkPath "/rec/" "2026-02-28" "") example_chunks
              (example_world None []))
    as [[[speech_chunks|e] w']|] eqn:Hrun;
    [|vm_compute in Hrun; discriminate|vm_compute in Hrun; discriminate].
  exists speech_chunks, w'. split; [reflexivity|].
  destruct (@detection_keeps_order writing_detector _ _ _ _ _ Hrun)
    as [Hsub Hprocs].
  split; [exact Hsub|]. by rewrite Hprocs.
Defined.

Lemma detection_fails_open_witness :
  ∃ w', @phase1_detect_speech absent_detector (mkPath "/rec/" "2026-02-28" "")
          example_chunks (example_world None [])
        = Some (Ok example_chunks, w').
Proof.
  apply (@detection_fails_open absent_detector).
  intros args fs. by right.
Defined.

Lemma detection_drops_chunks_without_output_witness :
  ∃ w', @phase1_detect_speech idle_detector (mkPath "/rec/" "2026-02-28" "")
          example_chunks (example_world None [])
        = Some (Ok [], w')
        ∧ files w' = files (example_world None []).
Proof.
  apply (@detection_drops_chunks_without_output idle_detector).
  - reflexivity.
  - intros chunk Hin. apply list_elem_of_In in Hin. simpl in Hin.
    destruct Hin as [<-|[<-|[<-|[]]]]; reflexivity.
Defined.

Lemma detector_output_is_consumed_witness :
  ∃ w', @detect_one writing_detector (chunk_at "2026-02-28_10-00-00")
          (example_world None [])
        = Some (Ok true, w')
        ∧ files w' !! path_str (whisper_json (chunk_at "2026-02-28_10-00-00"))
          = None.
Proof.
  destruct (@detector_output_is_consumed writing_detector
              (chunk_at "2026-02-28_10-00-00") (example_world None [])
              (<[path_str (whisper_json (chunk_at "2026-02-28_10-00-00"))
                 := "{text}"]> (files (example_world None [])))
              "{text}"
              (VDict [("text", VStr "  Good morning, everyone.  ")])
              "  Good morning, everyone.  ")
    as (w' & Hrun & Hfs).
  - reflexivity.
  - apply lookup_insert_eq.
  - reflexivity.
  - reflexivity.
  - exists w'. split; [exact Hrun|]. rewrite Hfs. apply lookup_delete_eq.
Defined.
